(** * The default seccomp profile of containerd, embedded and verified

    Source: [contrib/seccomp/seccomp_default.go].  The file has two
    functions, [arches] and [DefaultProfile].  Both read the build
    constant [runtime.GOARCH]; [DefaultProfile] also calls the version
    probe [kernelversion.GreaterEqualThan] and dereferences the chain
    [sp.Process.Capabilities.Bounding] of the OCI runtime specification.

    Embedding choices:
    - [runtime.GOARCH] is an explicit [string] argument;
    - the version probe is an argument of type
      [KernelVersion -> bool * option error];
    - Go pointers are [option]; dereferencing [nil] panics, so
      [DefaultProfile] returns an [outcome];
    - slices are lists; an empty slice literal and a nil slice are both
      [[]] (they have the same length and the same JSON rendering under
      [omitempty]);
    - [uint] and [uint64] values are [Z]; every constant of the file is
      far below [2^64], no arithmetic is performed on them besides the
      bitwise OR of the [CLONE_NEW*] flags. *)

From Stdlib Require Import ZArith List String Bool Lia Permutation.
Import ListNotations.

Open Scope string_scope.
Open Scope list_scope.

(** ** Constants of [golang.org/x/sys/unix] used by the profile *)

Module unix.

Definition AF_VSOCK : Z := 0x28.

Definition CLONE_NEWNS : Z := 0x20000.
Definition CLONE_NEWCGROUP : Z := 0x2000000.
Definition CLONE_NEWUTS : Z := 0x4000000.
Definition CLONE_NEWIPC : Z := 0x8000000.
Definition CLONE_NEWUSER : Z := 0x10000000.
Definition CLONE_NEWPID : Z := 0x20000000.
Definition CLONE_NEWNET : Z := 0x40000000.

(** [ENOSYS] is the one constant here whose number depends on the
    port: the MIPS ports use 89, sparc64 uses 90, the others 38. *)
Definition ENOSYS (GOARCH : string) : Z :=
  if (GOARCH =? "mips") || (GOARCH =? "mipsle")
     || (GOARCH =? "mips64") || (GOARCH =? "mips64le") then 0x59
  else if GOARCH =? "sparc64" then 0x5a
  else 0x26.

End unix.

(** ** The types of [runtime-spec/specs-go] the profile is made of *)

Module runtimespec.

Inductive Arch : Type :=
| ArchX86 | ArchX86_64 | ArchX32
| ArchARM | ArchAARCH64
| ArchMIPS | ArchMIPS64 | ArchMIPS64N32
| ArchMIPSEL | ArchMIPSEL64 | ArchMIPSEL64N32
| ArchPPC | ArchPPC64 | ArchPPC64LE
| ArchS390 | ArchS390X
| ArchPARISC | ArchPARISC64
| ArchRISCV64.

Inductive LinuxSeccompAction : Type :=
| ActKill | ActKillProcess | ActKillThread | ActTrap | ActErrno
| ActTrace | ActAllow | ActLog | ActNotify.

Inductive LinuxSeccompOperator : Type :=
| OpNotEqual | OpLessThan | OpLessEqual | OpEqualTo
| OpGreaterEqual | OpGreaterThan | OpMaskedEqual.

Record LinuxSeccompArg : Type := {
  Index : Z;
  Value : Z;
  ValueTwo : Z;
  Op : LinuxSeccompOperator
}.

Record LinuxSyscall : Type := {
  Names : list string;
  Action : LinuxSeccompAction;
  ErrnoRet : option Z;
  Args : list LinuxSeccompArg
}.

(** Only the fields [DefaultProfile] sets; the others keep their zero
    value. *)
Record LinuxSeccomp : Type := {
  DefaultAction : LinuxSeccompAction;
  Architectures : list Arch;
  Syscalls : list LinuxSyscall
}.

Record LinuxCapabilities : Type := {
  Bounding : list string;
  Effective : list string;
  Inheritable : list string;
  Permitted : list string;
  Ambient : list string
}.

(** [Process] and [Spec] are cut down to the path the profile reads:
    [Spec.Process] is a [*Process], [Process.Capabilities] a
    [*LinuxCapabilities]. *)
Record ProcessSpec : Type := {
  Capabilities : option LinuxCapabilities
}.

Record Spec : Type := {
  Process : option ProcessSpec
}.

End runtimespec.

Module kernelversion.

Record KernelVersion : Type := {
  Kernel : Z;
  Major : Z
}.

(** A Go [error] value, kept as its message. *)
Definition error : Type := string.

(** The signature of [GreaterEqualThan]: [(bool, error)], the error
    being [nil] on success. *)
Definition probe : Type := KernelVersion -> bool * option error.

End kernelversion.

(** ** Results of a Go call that may panic *)

Inductive outcome (A : Type) : Type :=
| Returned (a : A)
| Panicked (msg : string).

Arguments Returned {A} a.
Arguments Panicked {A} msg.

Definition nilDereference : string :=
  "runtime error: invalid memory address or nil pointer dereference".

(** [deref p k]: use the pointee of [p], panic when [p] is [nil]. *)
Definition deref {A B : Type} (p : option A) (k : A -> outcome B) : outcome B :=
  match p with
  | Some a => k a
  | None => Panicked nilDereference
  end.

(** ** The package [contrib/seccomp] *)

Module seccomp.

Import runtimespec.

Definition arches (GOARCH : string) : list Arch :=
  if GOARCH =? "amd64" then [ArchX86_64; ArchX86; ArchX32]
  else if GOARCH =? "arm64" then [ArchARM; ArchAARCH64]
  else if GOARCH =? "mips64" then [ArchMIPS; ArchMIPS64; ArchMIPS64N32]
  else if GOARCH =? "mips64n32" then [ArchMIPS; ArchMIPS64; ArchMIPS64N32]
  else if GOARCH =? "mipsel64" then [ArchMIPSEL; ArchMIPSEL64; ArchMIPSEL64N32]
  else if GOARCH =? "mipsel64n32" then [ArchMIPSEL; ArchMIPSEL64; ArchMIPSEL64N32]
  else if GOARCH =? "s390x" then [ArchS390; ArchS390X]
  else if GOARCH =? "riscv64" then [ArchRISCV64]
  else [].

(** [s.Syscalls = append(s.Syscalls, r)] *)
Definition appendSyscall (s : LinuxSeccomp) (r : LinuxSyscall) : LinuxSeccomp :=
  {| DefaultAction := DefaultAction s;
     Architectures := Architectures s;
     Syscalls := Syscalls s ++ [r] |}.

(** A rule literal with [Action: ActAllow] and an empty [Args]. *)
Definition allow (names : list string) : LinuxSyscall :=
  {| Names := names; Action := ActAllow; ErrnoRet := None; Args := [] |}.

(** A rule literal with [Action: ActAllow] and one argument test. *)
Definition allowIf (names : list string) (a : LinuxSeccompArg) : LinuxSyscall :=
  {| Names := names; Action := ActAllow; ErrnoRet := None; Args := [a] |}.

(** The first literal of [syscalls]: the catalogue allowed to every
    container. *)
Definition baseNames : list string :=
  [
    "accept"; "accept4"; "access"; "adjtimex"; "alarm"; "bind"; "brk";
    "capget"; "capset"; "chdir"; "chmod"; "chown"; "chown32"; "clock_adjtime";
    "clock_adjtime64"; "clock_getres"; "clock_getres_time64"; "clock_gettime";
    "clock_gettime64"; "clock_nanosleep"; "clock_nanosleep_time64"; "close";
    "close_range"; "connect"; "copy_file_range"; "creat"; "dup"; "dup2";
    "dup3"; "epoll_create"; "epoll_create1"; "epoll_ctl"; "epoll_ctl_old";
    "epoll_pwait"; "epoll_pwait2"; "epoll_wait"; "epoll_wait_old"; "eventfd";
    "eventfd2"; "execve"; "execveat"; "exit"; "exit_group"; "faccessat";
    "faccessat2"; "fadvise64"; "fadvise64_64"; "fallocate"; "fanotify_mark";
    "fchdir"; "fchmod"; "fchmodat"; "fchown"; "fchown32"; "fchownat"; "fcntl";
    "fcntl64"; "fdatasync"; "fgetxattr"; "flistxattr"; "flock"; "fork";
    "fremovexattr"; "fsetxattr"; "fstat"; "fstat64"; "fstatat64"; "fstatfs";
    "fstatfs64"; "fsync"; "ftruncate"; "ftruncate64"; "futex"; "futex_time64";
    "futex_waitv"; "futimesat"; "getcpu"; "getcwd"; "getdents"; "getdents64";
    "getegid"; "getegid32"; "geteuid"; "geteuid32"; "getgid"; "getgid32";
    "getgroups"; "getgroups32"; "getitimer"; "getpeername"; "getpgid";
    "getpgrp"; "getpid"; "getppid"; "getpriority"; "getrandom"; "getresgid";
    "getresgid32"; "getresuid"; "getresuid32"; "getrlimit"; "get_robust_list";
    "getrusage"; "getsid"; "getsockname"; "getsockopt"; "get_thread_area";
    "gettid"; "gettimeofday"; "getuid"; "getuid32"; "getxattr";
    "inotify_add_watch"; "inotify_init"; "inotify_init1"; "inotify_rm_watch";
    "io_cancel"; "ioctl"; "io_destroy"; "io_getevents"; "io_pgetevents";
    "io_pgetevents_time64"; "ioprio_get"; "ioprio_set"; "io_setup";
    "io_submit"; "io_uring_enter"; "io_uring_register"; "io_uring_setup";
    "ipc"; "kill"; "landlock_add_rule"; "landlock_create_ruleset";
    "landlock_restrict_self"; "lchown"; "lchown32"; "lgetxattr"; "link";
    "linkat"; "listen"; "listxattr"; "llistxattr"; "_llseek"; "lremovexattr";
    "lseek"; "lsetxattr"; "lstat"; "lstat64"; "madvise"; "membarrier";
    "memfd_create"; "memfd_secret"; "mincore"; "mkdir"; "mkdirat"; "mknod";
    "mknodat"; "mlock"; "mlock2"; "mlockall"; "mmap"; "mmap2"; "mprotect";
    "mq_getsetattr"; "mq_notify"; "mq_open"; "mq_timedreceive";
    "mq_timedreceive_time64"; "mq_timedsend"; "mq_timedsend_time64";
    "mq_unlink"; "mremap"; "msgctl"; "msgget"; "msgrcv"; "msgsnd"; "msync";
    "munlock"; "munlockall"; "munmap"; "name_to_handle_at"; "nanosleep";
    "newfstatat"; "_newselect"; "open"; "openat"; "openat2"; "pause";
    "pidfd_open"; "pidfd_send_signal"; "pipe"; "pipe2"; "pkey_alloc";
    "pkey_free"; "pkey_mprotect"; "poll"; "ppoll"; "ppoll_time64"; "prctl";
    "pread64"; "preadv"; "preadv2"; "prlimit64"; "process_mrelease";
    "pselect6"; "pselect6_time64"; "pwrite64"; "pwritev"; "pwritev2"; "read";
    "readahead"; "readlink"; "readlinkat"; "readv"; "recv"; "recvfrom";
    "recvmmsg"; "recvmmsg_time64"; "recvmsg"; "remap_file_pages";
    "removexattr"; "rename"; "renameat"; "renameat2"; "restart_syscall";
    "rmdir"; "rseq"; "rt_sigaction"; "rt_sigpending"; "rt_sigprocmask";
    "rt_sigqueueinfo"; "rt_sigreturn"; "rt_sigsuspend"; "rt_sigtimedwait";
    "rt_sigtimedwait_time64"; "rt_tgsigqueueinfo"; "sched_getaffinity";
    "sched_getattr"; "sched_getparam"; "sched_get_priority_max";
    "sched_get_priority_min"; "sched_getscheduler"; "sched_rr_get_interval";
    "sched_rr_get_interval_time64"; "sched_setaffinity"; "sched_setattr";
    "sched_setparam"; "sched_setscheduler"; "sched_yield"; "seccomp"; "select";
    "semctl"; "semget"; "semop"; "semtimedop"; "semtimedop_time64"; "send";
    "sendfile"; "sendfile64"; "sendmmsg"; "sendmsg"; "sendto"; "setfsgid";
    "setfsgid32"; "setfsuid"; "setfsuid32"; "setgid"; "setgid32"; "setgroups";
    "setgroups32"; "setitimer"; "setpgid"; "setpriority"; "setregid";
    "setregid32"; "setresgid"; "setresgid32"; "setresuid"; "setresuid32";
    "setreuid"; "setreuid32"; "setrlimit"; "set_robust_list"; "setsid";
    "setsockopt"; "set_thread_area"; "set_tid_address"; "setuid"; "setuid32";
    "setxattr"; "shmat"; "shmctl"; "shmdt"; "shmget"; "shutdown";
    "sigaltstack"; "signalfd"; "signalfd4"; "sigprocmask"; "sigreturn";
    "socketcall"; "socketpair"; "splice"; "stat"; "stat64"; "statfs";
    "statfs64"; "statx"; "symlink"; "symlinkat"; "sync"; "sync_file_range";
    "syncfs"; "sysinfo"; "tee"; "tgkill"; "time"; "timer_create";
    "timer_delete"; "timer_getoverrun"; "timer_gettime"; "timer_gettime64";
    "timer_settime"; "timer_settime64"; "timerfd_create"; "timerfd_gettime";
    "timerfd_gettime64"; "timerfd_settime"; "timerfd_settime64"; "times";
    "tkill"; "truncate"; "truncate64"; "ugetrlimit"; "umask"; "uname";
    "unlink"; "unlinkat"; "utime"; "utimensat"; "utimensat_time64"; "utimes";
    "vfork"; "vmsplice"; "wait4"; "waitid"; "waitpid"; "write"; "writev"
  ].

(** The literal [syscalls] of [DefaultProfile]: the catalogue, the
    [socket] rule and the five [personality] rules. *)
Definition syscalls : list LinuxSyscall :=
  [ allow baseNames;
    allowIf ["socket"]
      {| Index := 0; Value := unix.AF_VSOCK; ValueTwo := 0; Op := OpNotEqual |};
    allowIf ["personality"]
      {| Index := 0; Value := 0x0; ValueTwo := 0; Op := OpEqualTo |};
    allowIf ["personality"]
      {| Index := 0; Value := 0x0008; ValueTwo := 0; Op := OpEqualTo |};
    allowIf ["personality"]
      {| Index := 0; Value := 0x20000; ValueTwo := 0; Op := OpEqualTo |};
    allowIf ["personality"]
      {| Index := 0; Value := 0x20008; ValueTwo := 0; Op := OpEqualTo |};
    allowIf ["personality"]
      {| Index := 0; Value := 0xffffffff; ValueTwo := 0; Op := OpEqualTo |} ].

(** The block under [// include by kernel version]. *)
Definition includeByKernelVersion
    (GreaterEqualThan : kernelversion.probe) (s : LinuxSeccomp) : LinuxSeccomp :=
  match GreaterEqualThan {| kernelversion.Kernel := 4; kernelversion.Major := 8 |} with
  | (ok, None) =>
      if ok then
        appendSyscall s (allow ["process_vm_readv"; "process_vm_writev"; "ptrace"])
      else s
  | (_, Some _) => s
  end.

(** The switch under [// include by arch]. *)
Definition includeByArch (GOARCH : string) (s : LinuxSeccomp) : LinuxSeccomp :=
  if GOARCH =? "ppc64le" then
    appendSyscall s (allow ["sync_file_range2"; "swapcontext"])
  else if (GOARCH =? "arm") || (GOARCH =? "arm64") then
    appendSyscall s
      (allow ["arm_fadvise64_64"; "arm_sync_file_range"; "sync_file_range2";
              "breakpoint"; "cacheflush"; "set_tls"])
  else if GOARCH =? "amd64" then
    appendSyscall s (allow ["arch_prctl"; "modify_ldt"])
  else if GOARCH =? "386" then
    appendSyscall s (allow ["modify_ldt"])
  else if (GOARCH =? "s390") || (GOARCH =? "s390x") then
    appendSyscall s
      (allow ["s390_pci_mmio_read"; "s390_pci_mmio_write"; "s390_runtime_instr"])
  else if GOARCH =? "riscv64" then
    appendSyscall s (allow ["riscv_flush_icache"])
  else s.

(** One iteration of the loop over the bounding set: the body
    [switch c { ... }], on the loop state [(s, admin)]. *)
Definition capabilityCase (st : LinuxSeccomp * bool) (c : string)
  : LinuxSeccomp * bool :=
  let (s, admin) := st in
  if c =? "CAP_DAC_READ_SEARCH" then
    (appendSyscall s (allow ["open_by_handle_at"]), admin)
  else if c =? "CAP_SYS_ADMIN" then
    (appendSyscall s
       (allow ["bpf"; "clone"; "clone3"; "fanotify_init"; "fsconfig"; "fsmount";
               "fsopen"; "fspick"; "lookup_dcookie"; "mount"; "mount_setattr";
               "move_mount"; "open_tree"; "perf_event_open"; "quotactl";
               "quotactl_fd"; "setdomainname"; "sethostname"; "setns"; "syslog";
               "umount"; "umount2"; "unshare"]),
     true)
  else if c =? "CAP_SYS_BOOT" then
    (appendSyscall s (allow ["reboot"]), admin)
  else if c =? "CAP_SYS_CHROOT" then
    (appendSyscall s (allow ["chroot"]), admin)
  else if c =? "CAP_SYS_MODULE" then
    (appendSyscall s (allow ["delete_module"; "init_module"; "finit_module"]), admin)
  else if c =? "CAP_SYS_PACCT" then
    (appendSyscall s (allow ["acct"]), admin)
  else if c =? "CAP_SYS_PTRACE" then
    (appendSyscall s
       (allow ["kcmp"; "pidfd_getfd"; "process_madvise"; "process_vm_readv";
               "process_vm_writev"; "ptrace"]),
     admin)
  else if c =? "CAP_SYS_RAWIO" then
    (appendSyscall s (allow ["iopl"; "ioperm"]), admin)
  else if c =? "CAP_SYS_TIME" then
    (appendSyscall s
       (allow ["settimeofday"; "stime"; "clock_settime"; "clock_settime64"]),
     admin)
  else if c =? "CAP_SYS_TTY_CONFIG" then
    (appendSyscall s (allow ["vhangup"]), admin)
  else if c =? "CAP_SYS_NICE" then
    (appendSyscall s (allow ["get_mempolicy"; "mbind"; "set_mempolicy"]), admin)
  else if c =? "CAP_SYSLOG" then
    (appendSyscall s (allow ["syslog"]), admin)
  else if c =? "CAP_BPF" then
    (appendSyscall s (allow ["bpf"]), admin)
  else if c =? "CAP_PERFMON" then
    (appendSyscall s (allow ["perf_event_open"]), admin)
  else (s, admin).

(** [for _, c := range bounding { switch c { ... } }], started with
    [admin := false]. *)
Definition capabilityLoop (bounding : list string) (s : LinuxSeccomp)
  : LinuxSeccomp * bool :=
  fold_left capabilityCase bounding (s, false).

(** The mask of the [clone] rule, as the source writes it. *)
Definition namespaceMask : Z :=
  Z.lor unix.CLONE_NEWNS
    (Z.lor unix.CLONE_NEWUTS
       (Z.lor unix.CLONE_NEWIPC
          (Z.lor unix.CLONE_NEWUSER
             (Z.lor unix.CLONE_NEWPID
                (Z.lor unix.CLONE_NEWNET unix.CLONE_NEWCGROUP))))).

(** The block [if !admin { ... }]. *)
Definition restrictClone (GOARCH : string) (nosys : Z) (admin : bool)
    (s : LinuxSeccomp) : LinuxSeccomp :=
  if negb admin then
    let s :=
      if (GOARCH =? "s390") || (GOARCH =? "s390x") then
        appendSyscall s
          (allowIf ["clone"]
             {| Index := 1; Value := namespaceMask; ValueTwo := 0;
                Op := OpMaskedEqual |})
      else
        appendSyscall s
          (allowIf ["clone"]
             {| Index := 0; Value := namespaceMask; ValueTwo := 0;
                Op := OpMaskedEqual |})
    in
    appendSyscall s
      {| Names := ["clone3"]; Action := ActErrno; ErrnoRet := Some nosys;
         Args := [] |}
  else s.

(** [DefaultProfile] defines the allowed syscalls for the default
    seccomp profile. *)
Definition DefaultProfile (GOARCH : string)
    (GreaterEqualThan : kernelversion.probe) (sp : option Spec)
  : outcome LinuxSeccomp :=
  let nosys := unix.ENOSYS GOARCH in
  let s := {| DefaultAction := ActErrno;
              Architectures := arches GOARCH;
              Syscalls := syscalls |} in
  let s := includeByKernelVersion GreaterEqualThan s in
  let s := includeByArch GOARCH s in
  deref sp (fun sp =>
  deref (Process sp) (fun process =>
  deref (Capabilities process) (fun capabilities =>
    let (s, admin) := capabilityLoop (Bounding capabilities) s in
    Returned (restrictClone GOARCH nosys admin s)))).

End seccomp.

(** ** Vocabulary of the statements *)

Import runtimespec.

(** The policy with no rule; running one stage of [DefaultProfile] on
    it shows the rules that stage adds. *)
Definition noRules : LinuxSeccomp :=
  {| DefaultAction := ActErrno; Architectures := []; Syscalls := [] |}.

Definition kernelRules (GreaterEqualThan : kernelversion.probe) : list LinuxSyscall :=
  Syscalls (seccomp.includeByKernelVersion GreaterEqualThan noRules).

Definition archRules (GOARCH : string) : list LinuxSyscall :=
  Syscalls (seccomp.includeByArch GOARCH noRules).

Definition capabilityRules (c : string) : list LinuxSyscall :=
  Syscalls (fst (seccomp.capabilityCase (noRules, false) c)).

Definition cloneRules (GOARCH : string) (admin : bool) : list LinuxSyscall :=
  Syscalls (seccomp.restrictClone GOARCH (unix.ENOSYS GOARCH) admin noRules).

(** The bounding set [sp.Process.Capabilities.Bounding], when every
    pointer on the way is set. *)
Definition boundingOf (sp : option Spec) : option (list string) :=
  match sp with
  | Some sp =>
      match Process sp with
      | Some process =>
          match Capabilities process with
          | Some capabilities => Some (Bounding capabilities)
          | None => None
          end
      | None => None
      end
  | None => None
  end.

(** A specification that carries the bounding set [b] and nothing else. *)
Definition specWith (b : list string) : option Spec :=
  Some {| Process := Some {| Capabilities := Some
    {| Bounding := b; Effective := []; Inheritable := [];
       Permitted := []; Ambient := [] |} |} |}.

Definition hasAdmin (b : list string) : bool :=
  existsb (fun c => c =? "CAP_SYS_ADMIN") b.

(** The rules of the first four blocks of [DefaultProfile], in its
    order, and then all the rules. *)
Definition aheadOfClone (GOARCH : string) (GreaterEqualThan : kernelversion.probe)
    (b : list string) : list LinuxSyscall :=
  seccomp.syscalls ++ kernelRules GreaterEqualThan ++ archRules GOARCH
    ++ flat_map capabilityRules b.

Definition profileRules (GOARCH : string) (GreaterEqualThan : kernelversion.probe)
    (b : list string) : list LinuxSyscall :=
  aheadOfClone GOARCH GreaterEqualThan b ++ cloneRules GOARCH (hasAdmin b).

Definition profile (GOARCH : string) (GreaterEqualThan : kernelversion.probe)
    (b : list string) : LinuxSeccomp :=
  {| DefaultAction := ActErrno;
     Architectures := seccomp.arches GOARCH;
     Syscalls := profileRules GOARCH GreaterEqualThan b |}.

Definition kv48 : kernelversion.KernelVersion :=
  {| kernelversion.Kernel := 4; kernelversion.Major := 8 |}.

(** [r] names the syscall [n]. *)
Definition mentions (n : string) (r : LinuxSyscall) : bool :=
  existsb (String.eqb n) (Names r).

(** [Names] is a set: two name lists are the same set when each is
    included in the other. *)
Definition subsetb (l l' : list string) : bool :=
  forallb (fun x => existsb (String.eqb x) l') l.

Definition sameSet (l l' : list string) : bool :=
  subsetb l l' && subsetb l' l.

Fixpoint nodupb (l : list string) : bool :=
  match l with
  | [] => true
  | x :: l => negb (existsb (String.eqb x) l) && nodupb l
  end.

Definition isAllow (r : LinuxSyscall) : bool :=
  match Action r with ActAllow => true | _ => false end.

(** The invariant of the policy under construction: it denies by
    default and each of its rules allows. *)
Definition allowOnly (s : LinuxSeccomp) : Prop :=
  DefaultAction s = ActErrno /\ forallb isAllow (Syscalls s) = true.

(** [r] is an unconditional allowance: [ActAllow], no argument test,
    no return code. *)
Definition unconditional (r : LinuxSyscall) : bool :=
  isAllow r
  && match Args r with [] => true | _ :: _ => false end
  && match ErrnoRet r with None => true | Some _ => false end.

(** [r] names none of [names]. *)
Definition avoids (names : list string) (r : LinuxSyscall) : bool :=
  forallb (fun n => negb (mentions n r)) names.

(** *** What a rule means

    The profile is data for the seccomp filter: a call is tested
    against each rule; a rule applies when it names the syscall and
    every one of its argument tests holds (the tests of one rule are a
    conjunction, [OpMaskedEqual] is [(arg & Value) == ValueTwo]); when
    no rule applies the call gets [DefaultAction]. *)

Record Call : Type := {
  callName : string;
  callArgs : list Z
}.

Definition argument (c : Call) (i : Z) : Z :=
  nth (Z.to_nat i) (callArgs c) 0%Z.

Definition argHolds (c : Call) (a : LinuxSeccompArg) : bool :=
  let x := argument c (Index a) in
  match Op a with
  | OpNotEqual => negb (x =? Value a)%Z
  | OpLessThan => (x <? Value a)%Z
  | OpLessEqual => (x <=? Value a)%Z
  | OpEqualTo => (x =? Value a)%Z
  | OpGreaterEqual => (Value a <=? x)%Z
  | OpGreaterThan => (Value a <? x)%Z
  | OpMaskedEqual => (Z.land x (Value a) =? ValueTwo a)%Z
  end.

Definition applies (c : Call) (r : LinuxSyscall) : bool :=
  mentions (callName c) r && forallb (argHolds c) (Args r).

(** The rules of [s] that apply to [c], in the order of [s]. *)
Definition applicable (s : LinuxSeccomp) (c : Call) : list LinuxSyscall :=
  filter (applies c) (Syscalls s).

(** *** The rule shapes the statements name *)

Definition oneTest (name : string) (i v v2 : Z) (op : LinuxSeccompOperator)
  : LinuxSyscall :=
  {| Names := [name]; Action := ActAllow; ErrnoRet := None;
     Args := [{| Index := i; Value := v; ValueTwo := v2; Op := op |}] |}.

Definition namespaceFlags : list Z :=
  [unix.CLONE_NEWNS; unix.CLONE_NEWUTS; unix.CLONE_NEWIPC; unix.CLONE_NEWUSER;
   unix.CLONE_NEWPID; unix.CLONE_NEWNET; unix.CLONE_NEWCGROUP].

(** Index of the flags argument of [clone]. *)
Definition flagsIndex (GOARCH : string) : Z :=
  if (GOARCH =? "s390") || (GOARCH =? "s390x") then 1%Z else 0%Z.

Definition cloneRestriction (GOARCH : string) : LinuxSyscall :=
  oneTest "clone" (flagsIndex GOARCH) (fold_right Z.lor 0%Z namespaceFlags) 0
    OpMaskedEqual.

Definition clone3Unimplemented (GOARCH : string) : LinuxSyscall :=
  {| Names := ["clone3"]; Action := ActErrno;
     ErrnoRet := Some (unix.ENOSYS GOARCH); Args := [] |}.

Definition versionGated : list string :=
  ["process_vm_readv"; "process_vm_writev"; "ptrace"].

(** [r] has the names of the version-gated group, as a set. *)
Definition isVersionGated (r : LinuxSyscall) : bool :=
  sameSet (Names r) versionGated.

Definition personalityValues : list Z :=
  [0x0; 0x0008; 0x20000; 0x20008; 0xffffffff]%Z.

Definition personalityRule (v : Z) : LinuxSyscall :=
  oneTest "personality" 0 v 0 OpEqualTo.

Definition socketRule : LinuxSyscall :=
  oneTest "socket" 0 unix.AF_VSOCK 0 OpNotEqual.

(** The architectures the resolution table lists. *)
Definition listedArchitectures : list string :=
  ["amd64"; "arm64"; "mips64"; "mips64n32"; "mipsel64"; "mipsel64n32";
   "s390x"; "riscv64"].

(** The capability table as the specification gives it (its section 4.4),
    row by row and in its order of names; the source's table is
    [capabilityRules] above. *)
Definition specCapabilityTable : list (string * list string) :=
  [ ("CAP_DAC_READ_SEARCH", ["open_by_handle_at"]);
    ("CAP_SYS_ADMIN",
      ["bpf"; "clone"; "clone3";
       "fsopen"; "fsconfig"; "fsmount"; "fspick"; "mount"; "mount_setattr";
       "move_mount"; "open_tree"; "umount"; "umount2";
       "fanotify_init"; "lookup_dcookie"; "perf_event_open";
       "quotactl"; "quotactl_fd"; "setdomainname"; "sethostname"; "setns";
       "syslog"; "unshare"]);
    ("CAP_SYS_BOOT", ["reboot"]);
    ("CAP_SYS_CHROOT", ["chroot"]);
    ("CAP_SYS_MODULE", ["init_module"; "finit_module"; "delete_module"]);
    ("CAP_SYS_PACCT", ["acct"]);
    ("CAP_SYS_PTRACE",
      ["ptrace"; "process_vm_readv"; "process_vm_writev"; "process_madvise";
       "pidfd_getfd"; "kcmp"]);
    ("CAP_SYS_RAWIO", ["iopl"; "ioperm"]);
    ("CAP_SYS_TIME", ["settimeofday"; "stime"; "clock_settime"; "clock_settime64"]);
    ("CAP_SYS_TTY_CONFIG", ["vhangup"]);
    ("CAP_SYS_NICE", ["get_mempolicy"; "set_mempolicy"; "mbind"]);
    ("CAP_SYSLOG", ["syslog"]);
    ("CAP_BPF", ["bpf"]);
    ("CAP_PERFMON", ["perf_event_open"]) ].

Fixpoint specGroup (table : list (string * list string)) (c : string)
  : option (list string) :=
  match table with
  | [] => None
  | (k, group) :: rest => if c =? k then Some group else specGroup rest c
  end.

(** The tokens the specification's table has a row for. *)
Definition recognised (c : string) : bool :=
  match specGroup specCapabilityTable c with
  | Some _ => true
  | None => false
  end.

(** [r] is the rule of a row of the table: an allowance with no
    argument test whose names are, without repetition, the syscalls of
    [group]. *)
Definition grants (r : LinuxSyscall) (group : list string) : Prop :=
  Action r = ActAllow /\ ErrnoRet r = None /\ Args r = [] /\
  NoDup (Names r) /\ (forall n, In n (Names r) <-> In n group).

(** [r] is the rule of the row of the token [c]. *)
Definition ruleFor (r : LinuxSyscall) (c : string) : Prop :=
  exists group, specGroup specCapabilityTable c = Some group /\ grants r group.

(** A stage [f] keeps the head of the policy and appends the rules
    [added] to it. *)
Definition appends (f : LinuxSeccomp -> LinuxSeccomp) (added : list LinuxSyscall)
  : Prop :=
  forall s,
    DefaultAction (f s) = DefaultAction s /\
    Architectures (f s) = Architectures s /\
    Syscalls (f s) = Syscalls s ++ added.

(** ** Each stage appends: the shape of the returned policy *)

(** Case analysis on the string tests of a [switch]. *)
Ltac switch_cases :=
  repeat match goal with
         | |- context [String.eqb ?a ?k] => destruct (String.eqb_spec a k)
         end;
  try (subst; discriminate).

Section Stages.

Import seccomp.

Lemma appends_id : appends (fun s => s) [].
Proof. intros s. rewrite app_nil_r. auto. Qed.

Lemma appends_one r : appends (fun s => appendSyscall s r) [r].
Proof. intros s. cbn. auto. Qed.

Lemma appends_two r1 r2 :
  appends (fun s => appendSyscall (appendSyscall s r1) r2) [r1; r2].
Proof. intros s. cbn. rewrite <- app_assoc. auto. Qed.

Lemma includeByKernelVersion_appends p :
  appends (includeByKernelVersion p) (kernelRules p).
Proof.
  unfold kernelRules, includeByKernelVersion.
  destruct (p _) as [[|] [e|]].
  all: first [apply appends_id | apply appends_one].
Qed.

Lemma includeByArch_appends g : appends (includeByArch g) (archRules g).
Proof.
  unfold archRules, includeByArch.
  repeat match goal with
         | |- context [if ?b then _ else _] => destruct b
         end.
  all: first [apply appends_id | apply appends_one].
Qed.

Lemma restrictClone_appends g admin :
  appends (restrictClone g (unix.ENOSYS g) admin) (cloneRules g admin).
Proof.
  unfold cloneRules, restrictClone.
  destruct admin; cbn [negb]; [apply appends_id|].
  destruct (_ || _); apply appends_two.
Qed.

Lemma capabilityCase_appends c s admin :
  DefaultAction (fst (capabilityCase (s, admin) c)) = DefaultAction s /\
  Architectures (fst (capabilityCase (s, admin) c)) = Architectures s /\
  Syscalls (fst (capabilityCase (s, admin) c)) = Syscalls s ++ capabilityRules c /\
  snd (capabilityCase (s, admin) c) = admin || (c =? "CAP_SYS_ADMIN").
Proof.
  unfold capabilityRules, capabilityCase.
  switch_cases; cbn; rewrite ?app_nil_r, ?orb_false_r, ?orb_true_r; auto.
Qed.

Lemma capabilityLoop_from b : forall s admin,
  DefaultAction (fst (fold_left capabilityCase b (s, admin))) = DefaultAction s /\
  Architectures (fst (fold_left capabilityCase b (s, admin))) = Architectures s /\
  Syscalls (fst (fold_left capabilityCase b (s, admin)))
    = Syscalls s ++ flat_map capabilityRules b /\
  snd (fold_left capabilityCase b (s, admin)) = admin || hasAdmin b.
Proof.
  induction b as [|c b IH]; intros s admin.
  - cbn. rewrite app_nil_r, orb_false_r. auto.
  - cbn [fold_left flat_map hasAdmin existsb].
    destruct (capabilityCase_appends c s admin) as (Hd & Ha & Hs & Hadm).
    destruct (capabilityCase (s, admin) c) as [s1 admin1]; cbn [fst snd] in *.
    destruct (IH s1 admin1) as (Hd' & Ha' & Hs' & Hadm').
    rewrite Hd', Ha', Hs', Hadm', Hd, Ha, Hs, Hadm.
    rewrite <- app_assoc, orb_assoc. auto.
Qed.

Lemma capabilityLoop_appends b s :
  DefaultAction (fst (capabilityLoop b s)) = DefaultAction s /\
  Architectures (fst (capabilityLoop b s)) = Architectures s /\
  Syscalls (fst (capabilityLoop b s)) = Syscalls s ++ flat_map capabilityRules b /\
  snd (capabilityLoop b s) = hasAdmin b.
Proof. exact (capabilityLoop_from b s false). Qed.

Lemma policy_eta (s : LinuxSeccomp) d a r :
  DefaultAction s = d -> Architectures s = a -> Syscalls s = r ->
  s = {| DefaultAction := d; Architectures := a; Syscalls := r |}.
Proof. destruct s; cbn; intros; subst; reflexivity. Qed.

(** The whole function: it returns as soon as the bounding set can be
    reached, and the policy is [profile]. *)
Lemma DefaultProfile_returns g p sp b :
  boundingOf sp = Some b -> DefaultProfile g p sp = Returned (profile g p b).
Proof.
  intros Hb. unfold DefaultProfile.
  destruct sp as [[[[[[caps eff inh per amb]|]]|]]|]; cbn in Hb; try discriminate.
  injection Hb as ->. cbn [deref Process Capabilities Bounding].
  set (s0 := {| DefaultAction := ActErrno; Architectures := arches g;
                Syscalls := syscalls |}).
  destruct (includeByKernelVersion_appends p s0) as (Hd1 & Ha1 & Hs1).
  destruct (includeByArch_appends g (includeByKernelVersion p s0)) as (Hd2 & Ha2 & Hs2).
  destruct (capabilityLoop_appends b (includeByArch g (includeByKernelVersion p s0)))
    as (Hd3 & Ha3 & Hs3 & Hadm).
  destruct (capabilityLoop b _) as [s3 admin]; cbn [fst snd] in *. subst admin.
  destruct (restrictClone_appends g (hasAdmin b) s3) as (Hd4 & Ha4 & Hs4).
  f_equal. apply policy_eta.
  - now rewrite Hd4, Hd3, Hd2, Hd1.
  - now rewrite Ha4, Ha3, Ha2, Ha1.
  - rewrite Hs4, Hs3, Hs2, Hs1. unfold profileRules, aheadOfClone.
    cbn [Syscalls s0]. now rewrite <- !app_assoc.
Qed.

Lemma DefaultProfile_panics g p sp :
  boundingOf sp = None -> DefaultProfile g p sp = Panicked nilDereference.
Proof.
  unfold DefaultProfile.
  destruct sp as [[[[[[caps eff inh per amb]|]]|]]|]; cbn; intros H;
    solve [discriminate | reflexivity].
Qed.

End Stages.

(** ** The rules of each block *)

Section Blocks.

Import seccomp.

Lemma subsetb_spec l l' : subsetb l l' = true <-> incl l l'.
Proof.
  unfold subsetb, incl. rewrite forallb_forall.
  split; intros H x Hx; specialize (H x Hx).
  - apply existsb_exists in H as (y & Hy & E).
    apply String.eqb_eq in E. now subst.
  - apply existsb_exists. exists x. split; [assumption|apply String.eqb_refl].
Qed.

Lemma sameSet_spec l l' :
  sameSet l l' = true <-> (forall x, In x l <-> In x l').
Proof.
  unfold sameSet. rewrite andb_true_iff, !subsetb_spec. unfold incl.
  split; [intros [H1 H2] x; split; auto | intros H; split; intros x; apply H].
Qed.

Lemma mentions_spec n r : mentions n r = true <-> In n (Names r).
Proof.
  unfold mentions. rewrite existsb_exists. split.
  - intros (y & Hy & E). apply String.eqb_eq in E. now subst.
  - intros H. exists n. split; [assumption|apply String.eqb_refl].
Qed.

Lemma kernelRules_cases p :
  kernelRules p
  = match p kv48 with
    | (true, None) => [allow versionGated]
    | _ => []
    end.
Proof.
  unfold kernelRules, includeByKernelVersion. fold kv48.
  destruct (p kv48) as [[|] [e|]]; reflexivity.
Qed.

Lemma cloneRules_admin g : cloneRules g true = [].
Proof. reflexivity. Qed.

Lemma cloneRules_no_admin g :
  cloneRules g false = [cloneRestriction g; clone3Unimplemented g].
Proof.
  unfold cloneRules, restrictClone, cloneRestriction, flagsIndex.
  cbn [negb]. destruct (_ || _); reflexivity.
Qed.

Lemma forallb_flat_map (P : LinuxSyscall -> bool) (b : list string) :
  (forall c, In c b -> forallb P (capabilityRules c) = true) ->
  forallb P (flat_map capabilityRules b) = true.
Proof.
  induction b as [|c b IH]; intros H; cbn; [reflexivity|].
  rewrite forallb_app, H, IH.
  - reflexivity.
  - intros c' Hc'. apply H. now right.
  - now left.
Qed.

(** A property of the literal, of the version-gated rule and of every
    row of the two tables holds of every rule ahead of the [clone]
    block. *)
Lemma ahead_of_clone (P : LinuxSyscall -> bool) g p b :
  forallb P syscalls = true ->
  P (allow versionGated) = true ->
  forallb P (archRules g) = true ->
  (forall c, In c b -> forallb P (capabilityRules c) = true) ->
  forallb P (aheadOfClone g p b) = true.
Proof.
  intros Hs Hk Ha Hc. unfold aheadOfClone.
  rewrite !forallb_app, Hs, Ha, forallb_flat_map by assumption.
  rewrite kernelRules_cases.
  destruct (p kv48) as [[|] [e|]]; cbn; rewrite ?Hk; reflexivity.
Qed.

Lemma filter_none {A} (P : A -> bool) l :
  forallb (fun x => negb (P x)) l = true -> filter P l = [].
Proof.
  induction l as [|x l IH]; cbn; [reflexivity|].
  destruct (P x); cbn; [discriminate|exact IH].
Qed.

Lemma archRules_unconditional g :
  forallb (fun r => unconditional r
                    && avoids ["clone"; "clone3"; "personality"; "socket"] r)
    (archRules g) = true.
Proof. unfold archRules, includeByArch. switch_cases; reflexivity. Qed.

Lemma capabilityRules_unconditional c :
  forallb (fun r => unconditional r && avoids ["personality"; "socket"] r)
    (capabilityRules c) = true.
Proof. unfold capabilityRules, capabilityCase. switch_cases; reflexivity. Qed.

Lemma capabilityRules_avoid_clone c :
  c <> "CAP_SYS_ADMIN" ->
  forallb (avoids ["clone"; "clone3"]) (capabilityRules c) = true.
Proof.
  intros H. unfold capabilityRules, capabilityCase.
  switch_cases; solve [reflexivity | contradiction].
Qed.

Lemma hasAdmin_spec b : hasAdmin b = true <-> In "CAP_SYS_ADMIN" b.
Proof.
  unfold hasAdmin. rewrite existsb_exists. split.
  - intros (c & Hc & E). apply String.eqb_eq in E. now subst.
  - intros H. exists "CAP_SYS_ADMIN". split; [assumption|reflexivity].
Qed.

Lemma hasAdmin_false b c :
  hasAdmin b = false -> In c b -> c <> "CAP_SYS_ADMIN".
Proof.
  intros H Hc ->. apply hasAdmin_spec in Hc. congruence.
Qed.

Lemma forallb_weaken {A} (P Q : A -> bool) l :
  (forall x, P x = true -> Q x = true) ->
  forallb P l = true -> forallb Q l = true.
Proof.
  intros H. rewrite !forallb_forall. auto.
Qed.

Lemma aheadOfClone_allow g p b : forallb isAllow (aheadOfClone g p b) = true.
Proof.
  apply ahead_of_clone; try reflexivity.
  - eapply forallb_weaken; [|apply archRules_unconditional].
    intros r. unfold unconditional. rewrite !andb_true_iff. tauto.
  - intros c _. eapply forallb_weaken; [|apply capabilityRules_unconditional].
    intros r. unfold unconditional. rewrite !andb_true_iff. tauto.
Qed.

(** Without [CAP_SYS_ADMIN] nothing ahead of the [clone] block names
    [clone] or [clone3]. *)
Lemma aheadOfClone_avoids_clone g p b :
  hasAdmin b = false ->
  forallb (avoids ["clone"; "clone3"]) (aheadOfClone g p b) = true.
Proof.
  intros Hadm. apply ahead_of_clone; try reflexivity.
  - eapply forallb_weaken; [|apply archRules_unconditional].
    intros r. unfold avoids. cbn [forallb]. rewrite !andb_true_iff. tauto.
  - intros c Hc. apply capabilityRules_avoid_clone.
    eapply hasAdmin_false; eassumption.
Qed.

(** Whatever the bounding set, a rule ahead of the [clone] block that
    names [clone] or [clone3] is an unconditional allowance. *)
Lemma aheadOfClone_clone_unconditional g p b :
  forallb (fun r => unconditional r || avoids ["clone"; "clone3"] r)
    (aheadOfClone g p b) = true.
Proof.
  apply ahead_of_clone; try reflexivity.
  - eapply forallb_weaken; [|apply archRules_unconditional].
    intros r. rewrite andb_true_iff, orb_true_iff. tauto.
  - intros c _. eapply forallb_weaken; [|apply capabilityRules_unconditional].
    intros r. rewrite andb_true_iff, orb_true_iff. tauto.
Qed.

Lemma avoids_cons n names r :
  avoids (n :: names) r = true <-> ~ In n (Names r) /\ avoids names r = true.
Proof.
  unfold avoids. cbn [forallb]. rewrite andb_true_iff, negb_true_iff.
  rewrite <- mentions_spec. destruct (mentions n r); intuition congruence.
Qed.

(** Rules selected by [Q] ahead of the [clone] block come from the
    literal and the version gate when [Q] rejects every row of the two
    tables. *)
Lemma filter_aheadOfClone (Q : LinuxSyscall -> bool) g p b :
  forallb (fun r => negb (Q r)) (archRules g) = true ->
  (forall c, forallb (fun r => negb (Q r)) (capabilityRules c) = true) ->
  filter Q (aheadOfClone g p b) = filter Q syscalls ++ filter Q (kernelRules p).
Proof.
  intros Ha Hc. unfold aheadOfClone.
  rewrite !filter_app.
  rewrite (filter_none Q (archRules g)) by assumption.
  rewrite (filter_none Q (flat_map _ _)).
  - now rewrite app_nil_r.
  - apply forallb_flat_map. auto.
Qed.

Lemma archRules_not_gated g :
  forallb (fun r => negb (isVersionGated r)) (archRules g) = true.
Proof. unfold archRules, includeByArch. switch_cases; reflexivity. Qed.

Lemma capabilityRules_not_gated c :
  forallb (fun r => negb (isVersionGated r)) (capabilityRules c) = true.
Proof. unfold capabilityRules, capabilityCase. switch_cases; reflexivity. Qed.

Lemma cloneRules_not_gated g admin :
  forallb (fun r => negb (isVersionGated r)) (cloneRules g admin) = true.
Proof.
  destruct admin; [reflexivity|]. rewrite cloneRules_no_admin. reflexivity.
Qed.

Lemma profileRules_gated g p b :
  filter isVersionGated (profileRules g p b)
  = match p kv48 with
    | (true, None) => [allow versionGated]
    | _ => []
    end.
Proof.
  unfold profileRules. rewrite filter_app.
  rewrite (filter_none _ (cloneRules _ _)) by apply cloneRules_not_gated.
  rewrite app_nil_r, filter_aheadOfClone.
  - rewrite kernelRules_cases. destruct (p kv48) as [[|] [e|]]; reflexivity.
  - apply archRules_not_gated.
  - apply capabilityRules_not_gated.
Qed.

Lemma avoids_mentions names r n :
  avoids names r = true -> In n names -> negb (mentions n r) = true.
Proof.
  unfold avoids. rewrite forallb_forall. auto.
Qed.

(** The rules naming [personality] or [socket] are those of the
    literal [syscalls]. *)
Lemma profileRules_naming n g p b :
  In n ["personality"; "socket"] ->
  filter (mentions n) (profileRules g p b) = filter (mentions n) syscalls.
Proof.
  intros Hn. unfold profileRules.
  rewrite filter_app, filter_aheadOfClone.
  - assert (Hk : filter (mentions n) (kernelRules p) = []).
    { rewrite kernelRules_cases.
      destruct (p kv48) as [[|] [e|]]; try reflexivity.
      destruct Hn as [<-|[<-|[]]]; reflexivity. }
    assert (Hc : filter (mentions n) (cloneRules g (hasAdmin b)) = []).
    { destruct (hasAdmin b); [reflexivity|]. rewrite cloneRules_no_admin.
      destruct Hn as [<-|[<-|[]]]; reflexivity. }
    now rewrite Hk, Hc, !app_nil_r.
  - eapply forallb_weaken; [|apply archRules_unconditional].
    intros r H. apply andb_true_iff in H as [_ H].
    apply (avoids_mentions _ _ _ H). cbn in *. tauto.
  - intros c. eapply forallb_weaken; [|apply capabilityRules_unconditional].
    intros r H. apply andb_true_iff in H as [_ H].
    apply (avoids_mentions _ _ _ H). assumption.
Qed.

Lemma filter_andb {A} (P Q : A -> bool) l :
  filter (fun x => P x && Q x) l = filter Q (filter P l).
Proof.
  induction l as [|x l IH]; cbn; [reflexivity|].
  destruct (P x); cbn; [destruct (Q x)|]; now rewrite IH.
Qed.

(** The rules applying to a call are found among the rules naming it. *)
Lemma applicable_naming s c :
  applicable s c
  = filter (fun r => forallb (argHolds c) (Args r))
      (filter (mentions (callName c)) (Syscalls s)).
Proof. unfold applicable, applies. apply filter_andb. Qed.

Lemma profile_probe g p p' b :
  p' kv48 = p kv48 -> profile g p' b = profile g p b.
Proof.
  intros H. unfold profile, profileRules, aheadOfClone.
  now rewrite (kernelRules_cases p'), (kernelRules_cases p), H.
Qed.

(** A stage that appends allowances keeps [allowOnly]. *)
Lemma appends_allowOnly f added s :
  appends f added -> forallb isAllow added = true ->
  allowOnly s -> allowOnly (f s).
Proof.
  intros Hf Hadded [Hd Hs]. destruct (Hf s) as (Hd' & _ & Hs').
  split; [congruence|]. now rewrite Hs', forallb_app, Hs, Hadded.
Qed.

Lemma unconditional_isAllow r : unconditional r = true -> isAllow r = true.
Proof. unfold unconditional. rewrite !andb_true_iff. tauto. Qed.

Lemma kernelRules_allow p : forallb isAllow (kernelRules p) = true.
Proof.
  rewrite kernelRules_cases. destruct (p kv48) as [[|] [e|]]; reflexivity.
Qed.

Lemma archRules_allow g : forallb isAllow (archRules g) = true.
Proof.
  eapply forallb_weaken; [|apply archRules_unconditional].
  intros r H. apply andb_true_iff in H as [H _]. now apply unconditional_isAllow.
Qed.

Lemma capabilityRules_allow c : forallb isAllow (capabilityRules c) = true.
Proof.
  eapply forallb_weaken; [|apply capabilityRules_unconditional].
  intros r H. apply andb_true_iff in H as [H _]. now apply unconditional_isAllow.
Qed.

Lemma capabilityCase_allowOnly s admin c :
  allowOnly s -> allowOnly (fst (capabilityCase (s, admin) c)).
Proof.
  intros [Hd Hs].
  destruct (capabilityCase_appends c s admin) as (Hd' & _ & Hs' & _).
  split; [congruence|].
  now rewrite Hs', forallb_app, Hs, capabilityRules_allow.
Qed.

Lemma nodupb_spec l : nodupb l = true -> NoDup l.
Proof.
  induction l as [|x l IH]; cbn; intros H; constructor;
    apply andb_true_iff in H as [Hx Hl]; [|auto].
  intros Hin. apply negb_true_iff in Hx.
  assert (E : existsb (String.eqb x) l = true); [|congruence].
  apply existsb_exists. exists x. split; [assumption|apply String.eqb_refl].
Qed.

(** The admin flag and the capability rules depend on the bounding
    set only up to reordering, the flag only on membership. *)
Lemma hasAdmin_members b b' :
  (forall c, In c b <-> In c b') -> hasAdmin b = hasAdmin b'.
Proof.
  intros H. destruct (hasAdmin b) eqn:E, (hasAdmin b') eqn:E'; try reflexivity.
  - apply hasAdmin_spec, H, hasAdmin_spec in E. congruence.
  - apply hasAdmin_spec, H, hasAdmin_spec in E'. congruence.
Qed.

Lemma profileRules_blocks g p b :
  profileRules g p b
  = (syscalls ++ kernelRules p ++ archRules g)
      ++ flat_map capabilityRules b ++ cloneRules g (hasAdmin b).
Proof. unfold profileRules, aheadOfClone. now rewrite <- !app_assoc. Qed.

(** What one pass of the loop appends, against the table of the
    specification: the rule of the token's row, or nothing. *)
Lemma capabilityRules_ruleFor c :
  Forall2 ruleFor (capabilityRules c) (if recognised c then [c] else []).
Proof.
  unfold recognised, capabilityRules, capabilityCase.
  cbn [specGroup specCapabilityTable]. switch_cases.
  all: cbn [fst Syscalls appendSyscall noRules app];
    first [apply Forall2_nil | apply Forall2_cons; [|apply Forall2_nil]].
  all: subst c; eexists; split; [reflexivity|].
  all: split; [reflexivity|]; split; [reflexivity|]; split; [reflexivity|].
  all: split; [apply nodupb_spec; reflexivity|apply sameSet_spec; reflexivity].
Qed.

Lemma flat_map_ruleFor b :
  Forall2 ruleFor (flat_map capabilityRules b) (filter recognised b).
Proof.
  induction b as [|c b IH]; cbn [flat_map filter]; [constructor|].
  pose proof (capabilityRules_ruleFor c) as Hc.
  destruct (recognised c).
  - change (c :: filter recognised b) with ([c] ++ filter recognised b).
    now apply Forall2_app.
  - inversion Hc. assumption.
Qed.

Lemma capabilityRules_in_flat_map c b r :
  In c b -> In r (capabilityRules c) -> In r (flat_map capabilityRules b).
Proof. intros Hc Hr. apply in_flat_map. eauto. Qed.

End Blocks.

(** ** The architecture table *)

(** C4. [arches] maps each architecture of its table to the listed,
    non-empty, duplicate-free set of ArchIds (amd64 to x86_64, x86 and
    x32, and so on) and every other architecture string to the empty
    list; it has no failure result. *)
Theorem arches_table :
  seccomp.arches "amd64" = [ArchX86_64; ArchX86; ArchX32] /\
  seccomp.arches "arm64" = [ArchARM; ArchAARCH64] /\
  seccomp.arches "mips64" = [ArchMIPS; ArchMIPS64; ArchMIPS64N32] /\
  seccomp.arches "mips64n32" = [ArchMIPS; ArchMIPS64; ArchMIPS64N32] /\
  seccomp.arches "mipsel64" = [ArchMIPSEL; ArchMIPSEL64; ArchMIPSEL64N32] /\
  seccomp.arches "mipsel64n32" = [ArchMIPSEL; ArchMIPSEL64; ArchMIPSEL64N32] /\
  seccomp.arches "s390x" = [ArchS390; ArchS390X] /\
  seccomp.arches "riscv64" = [ArchRISCV64] /\
  forall GOARCH,
    NoDup (seccomp.arches GOARCH) /\
    (In GOARCH listedArchitectures -> seccomp.arches GOARCH <> []) /\
    (~ In GOARCH listedArchitectures -> seccomp.arches GOARCH = []).
Proof.
  repeat (split; [reflexivity|]).
  intros g. split; [|split].
  - unfold seccomp.arches. switch_cases.
    all: repeat constructor; cbn; intuition discriminate.
  - cbn. intros H. decompose [or] H; subst; try discriminate. contradiction.
  - intros H. unfold seccomp.arches. switch_cases.
    all: try reflexivity.
    all: exfalso; apply H; subst; cbn; tauto.
Qed.

Lemma arches_table_witness :
  seccomp.arches "s390x" <> [] /\ seccomp.arches "ppc64le" = [].
Proof.
  split.
  - apply (arches_table). cbn. tauto.
  - apply (arches_table). cbn. intuition discriminate.
Defined.

(** ** The deny rule *)

(** C10. Every block of [DefaultProfile] but the last keeps the
    policy under construction at default action [ActErrno] with
    [ActAllow] rules only; the last block does so as well when
    [CAP_SYS_ADMIN] was seen and otherwise adds one rule that is not
    [ActAllow], the [clone3] rule.  So the returned policy has default
    action [ActErrno]; its rules that are not [ActAllow] are none when
    [CAP_SYS_ADMIN] is in the bounding set and, when it is not, exactly
    the one [clone3] rule with [ActErrno] and return code [ENOSYS];
    there is at most one such rule. *)
Theorem deny_rule_is_clone3 :
  (forall GOARCH GreaterEqualThan,
     allowOnly {| DefaultAction := ActErrno;
                  Architectures := seccomp.arches GOARCH;
                  Syscalls := seccomp.syscalls |} /\
     (forall s, allowOnly s ->
        allowOnly (seccomp.includeByKernelVersion GreaterEqualThan s)) /\
     (forall s, allowOnly s -> allowOnly (seccomp.includeByArch GOARCH s)) /\
     (forall s admin c, allowOnly s ->
        allowOnly (fst (seccomp.capabilityCase (s, admin) c))) /\
     (forall s nosys, allowOnly s ->
        allowOnly (seccomp.restrictClone GOARCH nosys true s)) /\
     (forall s, allowOnly s ->
        DefaultAction (seccomp.restrictClone GOARCH (unix.ENOSYS GOARCH) false s)
        = ActErrno /\
        filter (fun r => negb (isAllow r))
          (Syscalls (seccomp.restrictClone GOARCH (unix.ENOSYS GOARCH) false s))
        = [clone3Unimplemented GOARCH])) /\
  forall GOARCH GreaterEqualThan sp b,
    boundingOf sp = Some b ->
    exists s,
      seccomp.DefaultProfile GOARCH GreaterEqualThan sp = Returned s /\
      DefaultAction s = ActErrno /\
      filter (fun r => negb (isAllow r)) (Syscalls s)
      = (if hasAdmin b then [] else [clone3Unimplemented GOARCH]) /\
      (forall r, In r (Syscalls s) ->
         Action r = ActAllow \/
         (~ In "CAP_SYS_ADMIN" b /\ r = clone3Unimplemented GOARCH)) /\
      (List.length (filter (fun r => negb (isAllow r)) (Syscalls s)) <= 1)%nat.
Proof.
  split.
  { intros g p. split; [split; reflexivity|].
    split; [|split; [|split; [|split]]].
    - intros s. apply (appends_allowOnly _ (kernelRules p)).
      + apply includeByKernelVersion_appends.
      + apply kernelRules_allow.
    - intros s. apply (appends_allowOnly _ (archRules g)).
      + apply includeByArch_appends.
      + apply archRules_allow.
    - intros s admin c. apply capabilityCase_allowOnly.
    - intros s nosys H. exact H.
    - intros s [Hd Hs].
      destruct (restrictClone_appends g false s) as (Hd' & _ & Hs').
      split; [congruence|].
      rewrite Hs', filter_app, filter_none, cloneRules_no_admin; [reflexivity|].
      eapply forallb_weaken; [|exact Hs]. intros r ->. reflexivity. }
  intros GOARCH GreaterEqualThan sp b Hb.
  exists (profile GOARCH GreaterEqualThan b).
  split; [now apply DefaultProfile_returns|].
  split; [reflexivity|].
  pose proof (aheadOfClone_allow GOARCH GreaterEqualThan b) as Hahead.
  assert (Hfilter : filter (fun r => negb (isAllow r))
            (Syscalls (profile GOARCH GreaterEqualThan b))
          = if hasAdmin b then [] else [clone3Unimplemented GOARCH]).
  { cbn [Syscalls profile]. unfold profileRules. rewrite filter_app.
    rewrite filter_none.
    - destruct (hasAdmin b);
        [rewrite cloneRules_admin | rewrite cloneRules_no_admin]; reflexivity.
    - eapply forallb_weaken; [|exact Hahead].
      intros r ->. reflexivity. }
  split; [exact Hfilter|]. split.
  - intros r Hr. destruct (isAllow r) eqn:E.
    + left. unfold isAllow in E. destruct (Action r); congruence.
    + right. assert (Hin : In r (filter (fun r => negb (isAllow r))
                                   (Syscalls (profile GOARCH GreaterEqualThan b)))).
      { apply filter_In. split; [assumption|now rewrite E]. }
      rewrite Hfilter in Hin. destruct (hasAdmin b) eqn:Ha; [destruct Hin|].
      destruct Hin as [<-|[]]. split; [|reflexivity].
      intros Hadm. apply hasAdmin_spec in Hadm. congruence.
  - rewrite Hfilter. destruct (hasAdmin b); cbn; lia.
Qed.

Lemma deny_rule_is_clone3_witness :
  exists s,
    seccomp.DefaultProfile "amd64" (fun _ => (true, None))
      (specWith ["CAP_SYS_BOOT"; "CAP_NET_RAW"]) = Returned s /\
    DefaultAction s = ActErrno /\
    filter (fun r => negb (isAllow r)) (Syscalls s)
    = [clone3Unimplemented "amd64"].
Proof.
  destruct (proj2 deny_rule_is_clone3 "amd64" (fun _ => (true, None))
              (specWith ["CAP_SYS_BOOT"; "CAP_NET_RAW"])
              ["CAP_SYS_BOOT"; "CAP_NET_RAW"] eq_refl)
    as (s & Hs & Hd & Hf & _).
  exists s. repeat split; assumption.
Defined.

(** ** The [clone] block *)

(** C1. When [CAP_SYS_ADMIN] is not in the bounding set the policy
    ends with the [clone] rule followed by the [clone3] rule; the
    [clone] rule is [ActAllow] with the single test
    [(arg & mask) == 0], [OpMaskedEqual] with [ValueTwo = 0], whose mask
    is the OR of the seven [CLONE_NEW*] flags ([0x7e020000]) and whose
    index is 1 on s390 and s390x and 0 elsewhere; no earlier rule names
    [clone].  When [CAP_SYS_ADMIN] is in the bounding set nothing is
    appended after the capability rules and every rule naming [clone]
    is an unconditional allowance. *)
Theorem clone_rule_by_admin GOARCH GreaterEqualThan sp b :
  boundingOf sp = Some b ->
  exists s,
    seccomp.DefaultProfile GOARCH GreaterEqualThan sp = Returned s /\
    (~ In "CAP_SYS_ADMIN" b ->
     Syscalls s
     = aheadOfClone GOARCH GreaterEqualThan b
         ++ [cloneRestriction GOARCH; clone3Unimplemented GOARCH] /\
     (forall r, In r (aheadOfClone GOARCH GreaterEqualThan b) ->
        ~ In "clone" (Names r))) /\
    (In "CAP_SYS_ADMIN" b ->
     Syscalls s = aheadOfClone GOARCH GreaterEqualThan b /\
     (forall r, In r (Syscalls s) -> In "clone" (Names r) ->
        unconditional r = true)) /\
    cloneRestriction GOARCH
    = {| Names := ["clone"]; Action := ActAllow; ErrnoRet := None;
         Args := [{| Index := if (GOARCH =? "s390") || (GOARCH =? "s390x")
                              then 1 else 0;
                     Value := 0x7e020000; ValueTwo := 0;
                     Op := OpMaskedEqual |}] |} /\
    (0x7e020000 =
       Z.lor unix.CLONE_NEWNS (Z.lor unix.CLONE_NEWUTS (Z.lor unix.CLONE_NEWIPC
         (Z.lor unix.CLONE_NEWUSER (Z.lor unix.CLONE_NEWPID
           (Z.lor unix.CLONE_NEWNET unix.CLONE_NEWCGROUP))))))%Z.
Proof.
  intros Hb. exists (profile GOARCH GreaterEqualThan b).
  split; [now apply DefaultProfile_returns|].
  cbn [Syscalls profile]. unfold profileRules.
  split; [|split; [|split; reflexivity]].
  - intros Hno.
    assert (Hadm : hasAdmin b = false).
    { destruct (hasAdmin b) eqn:E; [|reflexivity].
      apply hasAdmin_spec in E. contradiction. }
    rewrite Hadm, cloneRules_no_admin. split; [reflexivity|].
    intros r Hr.
    pose proof (aheadOfClone_avoids_clone GOARCH GreaterEqualThan b Hadm) as H.
    rewrite forallb_forall in H. specialize (H r Hr).
    now apply avoids_cons in H.
  - intros Hin. apply hasAdmin_spec in Hin.
    rewrite Hin, cloneRules_admin, app_nil_r. split; [reflexivity|].
    intros r Hr Hclone.
    pose proof (aheadOfClone_clone_unconditional GOARCH GreaterEqualThan b) as H.
    rewrite forallb_forall in H. specialize (H r Hr).
    apply orb_true_iff in H as [H|H]; [assumption|].
    apply avoids_cons in H. tauto.
Qed.

Lemma clone_rule_by_admin_witness :
  exists s,
    seccomp.DefaultProfile "s390x" (fun _ => (false, None))
      (specWith ["CAP_CHOWN"; "CAP_SYS_CHROOT"]) = Returned s /\
    Syscalls s
    = aheadOfClone "s390x" (fun _ => (false, None)) ["CAP_CHOWN"; "CAP_SYS_CHROOT"]
        ++ [oneTest "clone" 1 0x7e020000 0 OpMaskedEqual;
            clone3Unimplemented "s390x"].
Proof.
  destruct (clone_rule_by_admin "s390x" (fun _ => (false, None))
              (specWith ["CAP_CHOWN"; "CAP_SYS_CHROOT"])
              ["CAP_CHOWN"; "CAP_SYS_CHROOT"] eq_refl)
    as (s & Hs & Hno & _).
  exists s. split; [exact Hs|].
  apply Hno. cbn. intuition discriminate.
Defined.

(** C2. When [CAP_SYS_ADMIN] is not in the bounding set the last rule
    of the policy is the [clone3] rule: action [ActErrno] with return
    code [ENOSYS] and no argument test; it is the only rule naming
    [clone3], so it is the one rule that applies to a [clone3] call,
    whatever the arguments.  When [CAP_SYS_ADMIN] is in the bounding
    set every rule is [ActAllow] and every rule naming [clone3] is an
    unconditional allowance. *)
Theorem clone3_rule_by_admin GOARCH GreaterEqualThan sp b :
  boundingOf sp = Some b ->
  exists s,
    seccomp.DefaultProfile GOARCH GreaterEqualThan sp = Returned s /\
    (~ In "CAP_SYS_ADMIN" b ->
     exists ahead,
       Syscalls s
       = ahead ++ [{| Names := ["clone3"]; Action := ActErrno;
                      ErrnoRet := Some (unix.ENOSYS GOARCH); Args := [] |}] /\
       (forall r, In r ahead -> ~ In "clone3" (Names r)) /\
       (forall args,
          applicable s {| callName := "clone3"; callArgs := args |}
          = [clone3Unimplemented GOARCH])) /\
    (In "CAP_SYS_ADMIN" b ->
     forall r, In r (Syscalls s) ->
       Action r = ActAllow /\
       (In "clone3" (Names r) -> unconditional r = true)).
Proof.
  intros Hb. exists (profile GOARCH GreaterEqualThan b).
  split; [now apply DefaultProfile_returns|].
  unfold applicable. cbn [Syscalls profile]. unfold profileRules. split.
  - intros Hno.
    assert (Hadm : hasAdmin b = false).
    { destruct (hasAdmin b) eqn:E; [|reflexivity].
      apply hasAdmin_spec in E. contradiction. }
    rewrite Hadm, cloneRules_no_admin.
    pose proof (aheadOfClone_avoids_clone GOARCH GreaterEqualThan b Hadm) as H.
    rewrite forallb_forall in H.
    exists (aheadOfClone GOARCH GreaterEqualThan b ++ [cloneRestriction GOARCH]).
    split; [now rewrite <- app_assoc|]. split.
    + intros r Hr. apply in_app_or in Hr as [Hr|[<-|[]]].
      * specialize (H r Hr). apply avoids_cons in H as [_ H].
        now apply avoids_cons in H.
      * cbn. intuition discriminate.
    + intros args. rewrite filter_app, filter_none; [reflexivity|].
      rewrite forallb_forall. intros r Hr. specialize (H r Hr).
      apply avoids_cons in H as [_ H]. apply avoids_cons in H as [H _].
      unfold applies. cbn [callName].
      destruct (mentions "clone3" r) eqn:E; [|reflexivity].
      apply mentions_spec in E. contradiction.
  - intros Hin. apply hasAdmin_spec in Hin.
    rewrite Hin, cloneRules_admin, app_nil_r.
    intros r Hr. split.
    + pose proof (aheadOfClone_allow GOARCH GreaterEqualThan b) as H.
      rewrite forallb_forall in H. specialize (H r Hr).
      unfold isAllow in H. destruct (Action r); congruence.
    + intros Hclone3.
      pose proof (aheadOfClone_clone_unconditional GOARCH GreaterEqualThan b) as H.
      rewrite forallb_forall in H. specialize (H r Hr).
      apply orb_true_iff in H as [H|H]; [assumption|].
      apply avoids_cons in H as [_ H]. apply avoids_cons in H. tauto.
Qed.

Lemma clone3_rule_by_admin_witness :
  exists s,
    seccomp.DefaultProfile "arm64" (fun _ => (true, None)) (specWith [])
    = Returned s /\
    applicable s {| callName := "clone3"; callArgs := [0x7ffd1000; 88]%Z |}
    = [{| Names := ["clone3"]; Action := ActErrno; ErrnoRet := Some 38%Z;
          Args := [] |}].
Proof.
  destruct (clone3_rule_by_admin "arm64" (fun _ => (true, None)) (specWith [])
              [] eq_refl)
    as (s & Hs & Hno & _).
  exists s. split; [exact Hs|].
  destruct (Hno (fun H => H)) as (ahead & _ & _ & Happ).
  exact (Happ [0x7ffd1000; 88]%Z).
Defined.

(** ** The kernel-version gate *)

(** C3. The probe is asked about kernel 4.8 and about nothing else.
    If it answers [(true, nil)] the policy has exactly one rule whose
    names are the set of [process_vm_readv], [process_vm_writev] and
    [ptrace], an unconditional allowance; if it answers [(false, nil)]
    or any [(_, err)] with a non-nil [err], the policy has no rule
    with that set of names.  In every case [DefaultProfile] returns a
    policy: an error of the probe gives the policy of the answer
    [(false, nil)]. *)
Theorem version_gate GOARCH GreaterEqualThan sp b :
  boundingOf sp = Some b ->
  exists s,
    seccomp.DefaultProfile GOARCH GreaterEqualThan sp = Returned s /\
    (GreaterEqualThan kv48 = (true, None) ->
     filter isVersionGated (Syscalls s)
     = [{| Names := ["process_vm_readv"; "process_vm_writev"; "ptrace"];
           Action := ActAllow; ErrnoRet := None; Args := [] |}]) /\
    (GreaterEqualThan kv48 = (false, None) \/
     (exists ok e, GreaterEqualThan kv48 = (ok, Some e)) ->
     forall r, In r (Syscalls s) ->
       ~ (forall n, In n (Names r) <-> In n versionGated)) /\
    (forall ok e, GreaterEqualThan kv48 = (ok, Some e) ->
       seccomp.DefaultProfile GOARCH (fun _ => (false, None)) sp = Returned s) /\
    (forall probe', probe' kv48 = GreaterEqualThan kv48 ->
       seccomp.DefaultProfile GOARCH probe' sp = Returned s).
Proof.
  intros Hb. exists (profile GOARCH GreaterEqualThan b).
  split; [now apply DefaultProfile_returns|].
  cbn [Syscalls profile].
  pose proof (profileRules_gated GOARCH GreaterEqualThan b) as Hg.
  split; [|split; [|split]].
  - intros Hp. now rewrite Hp in Hg.
  - intros Hp r Hr Hsame.
    assert (Hin : In r (filter isVersionGated
                          (profileRules GOARCH GreaterEqualThan b))).
    { apply filter_In. split; [assumption|]. now apply sameSet_spec. }
    rewrite Hg in Hin.
    destruct Hp as [Hp|(ok & e & Hp)]; rewrite Hp in Hin.
    + destruct Hin.
    + destruct ok; destruct Hin.
  - intros ok e Hp. rewrite (DefaultProfile_returns _ _ _ _ Hb). f_equal.
    unfold profile, profileRules, aheadOfClone.
    rewrite !kernelRules_cases, Hp. now destruct ok.
  - intros probe' Hp. rewrite (DefaultProfile_returns _ _ _ _ Hb). f_equal.
    now apply profile_probe.
Qed.

Lemma version_gate_witness :
  exists s,
    seccomp.DefaultProfile "amd64"
      (fun _ => (true, Some "open /proc/sys/kernel/osrelease: permission denied"))
      (specWith ["CAP_SYS_PTRACE"]) = Returned s /\
    forall r, In r (Syscalls s) ->
      ~ (forall n, In n (Names r) <-> In n versionGated).
Proof.
  destruct (version_gate "amd64"
              (fun _ => (true, Some "open /proc/sys/kernel/osrelease: permission denied"))
              (specWith ["CAP_SYS_PTRACE"]) ["CAP_SYS_PTRACE"] eq_refl)
    as (s & Hs & _ & Habsent & _).
  exists s. split; [exact Hs|].
  apply Habsent. right. eexists. eexists. reflexivity.
Defined.

(** ** The argument-tested rules of the literal *)

(** C5. The rules naming [personality], in the literal [syscalls] and
    in every returned policy, are five rules, in this order: each is [ActAllow] with the one
    test [OpEqualTo] on argument 0, for the values [0x0], [0x0008],
    [0x20000], [0x20008] and [0xffffffff].  A [personality] call with
    one of these values is met by the rule of that value; with any
    other value no rule applies and the call gets the default action
    [ActErrno]. *)
Theorem personality_rules :
  filter (mentions "personality") seccomp.syscalls
  = map personalityRule [0x0; 0x0008; 0x20000; 0x20008; 0xffffffff]%Z /\
  forall GOARCH GreaterEqualThan sp b,
    boundingOf sp = Some b ->
    exists s,
      seccomp.DefaultProfile GOARCH GreaterEqualThan sp = Returned s /\
      filter (mentions "personality") (Syscalls s)
      = map personalityRule [0x0; 0x0008; 0x20000; 0x20008; 0xffffffff]%Z /\
      DefaultAction s = ActErrno /\
      (forall c, callName c = "personality" ->
         (In (argument c 0) personalityValues ->
          applicable s c = [personalityRule (argument c 0)]) /\
         (~ In (argument c 0) personalityValues -> applicable s c = [])).
Proof.
  split; [reflexivity|].
  intros GOARCH GreaterEqualThan sp b Hb.
  exists (profile GOARCH GreaterEqualThan b).
  split; [now apply DefaultProfile_returns|].
  assert (Hp : filter (mentions "personality")
                 (Syscalls (profile GOARCH GreaterEqualThan b))
               = map personalityRule personalityValues).
  { cbn [Syscalls profile]. rewrite profileRules_naming by (cbn; tauto).
    reflexivity. }
  split; [exact Hp|]. split; [reflexivity|].
  intros c Hc. rewrite applicable_naming, Hc, Hp.
  unfold personalityValues. cbn [map filter personalityRule oneTest Args forallb
                                   argHolds Index Value Op andb In].
  generalize (argument c 0). intros x. split.
  - intros H. decompose [or] H; try contradiction; subst x; reflexivity.
  - intros H.
    repeat match goal with
           | |- context [Z.eqb x ?v] => destruct (Z.eqb_spec x v)
           end; try reflexivity; exfalso; apply H; subst x; auto 10.
Qed.

Lemma personality_rules_witness :
  exists s,
    seccomp.DefaultProfile "amd64" (fun _ => (true, None))
      (specWith ["CAP_SYS_ADMIN"]) = Returned s /\
    applicable s {| callName := "personality"; callArgs := [0x20008%Z] |}
    = [personalityRule 0x20008] /\
    applicable s {| callName := "personality"; callArgs := [0x40000%Z] |} = [].
Proof.
  destruct (proj2 personality_rules "amd64" (fun _ => (true, None))
              (specWith ["CAP_SYS_ADMIN"]) ["CAP_SYS_ADMIN"] eq_refl)
    as (s & Hs & _ & _ & Hcall).
  exists s. split; [exact Hs|]. split.
  - apply (Hcall {| callName := "personality"; callArgs := [0x20008%Z] |} eq_refl).
    cbn. tauto.
  - apply (Hcall {| callName := "personality"; callArgs := [0x40000%Z] |} eq_refl).
    cbn. intuition discriminate.
Defined.

(** C6. The literal [syscalls] and every returned policy have exactly
    one rule naming [socket]: [ActAllow]
    with the one test [OpNotEqual] of argument 0 against [AF_VSOCK].
    To a [socket] call of family [AF_VSOCK] no rule applies, so it gets
    the default action [ActErrno]; to a [socket] call of any other
    family that rule applies. *)
Theorem socket_rule_excludes_vsock :
  filter (mentions "socket") seccomp.syscalls
  = [{| Names := ["socket"]; Action := ActAllow; ErrnoRet := None;
        Args := [{| Index := 0; Value := unix.AF_VSOCK; ValueTwo := 0;
                    Op := OpNotEqual |}] |}] /\
  forall GOARCH GreaterEqualThan sp b,
    boundingOf sp = Some b ->
    exists s,
      seccomp.DefaultProfile GOARCH GreaterEqualThan sp = Returned s /\
      filter (mentions "socket") (Syscalls s) = [socketRule] /\
      DefaultAction s = ActErrno /\
      (forall c, callName c = "socket" ->
         (argument c 0 = unix.AF_VSOCK -> applicable s c = []) /\
         (argument c 0 <> unix.AF_VSOCK -> applicable s c = [socketRule])).
Proof.
  split; [reflexivity|].
  intros GOARCH GreaterEqualThan sp b Hb.
  exists (profile GOARCH GreaterEqualThan b).
  split; [now apply DefaultProfile_returns|].
  assert (Hp : filter (mentions "socket")
                 (Syscalls (profile GOARCH GreaterEqualThan b))
               = [socketRule]).
  { cbn [Syscalls profile]. rewrite profileRules_naming by (cbn; tauto).
    reflexivity. }
  split; [exact Hp|]. split; [reflexivity|].
  intros c Hc. rewrite applicable_naming, Hc, Hp.
  cbn [filter socketRule oneTest Args forallb argHolds Index Value Op andb].
  generalize (argument c 0). intros x.
  destruct (Z.eqb_spec x unix.AF_VSOCK); cbn [negb]; split;
    intros; solve [reflexivity | contradiction].
Qed.

Lemma socket_rule_excludes_vsock_witness :
  exists s,
    seccomp.DefaultProfile "riscv64" (fun _ => (false, None)) (specWith [])
    = Returned s /\
    applicable s {| callName := "socket"; callArgs := [40; 1; 0]%Z |} = [] /\
    applicable s {| callName := "socket"; callArgs := [2; 1; 0]%Z |} = [socketRule].
Proof.
  destruct (proj2 socket_rule_excludes_vsock "riscv64" (fun _ => (false, None))
              (specWith []) [] eq_refl)
    as (s & Hs & _ & _ & Hcall).
  exists s. split; [exact Hs|]. split.
  - apply (Hcall {| callName := "socket"; callArgs := [40; 1; 0]%Z |} eq_refl).
    reflexivity.
  - apply (Hcall {| callName := "socket"; callArgs := [2; 1; 0]%Z |} eq_refl).
    cbn. discriminate.
Defined.

(** ** The capability table *)

(** C7. One pass of the loop over the bounding set, for a token [c]:
    if the specification's table has a row for [c], the rules of the
    policy after the pass are the rules before it followed by one
    rule, [ActAllow] with no argument test, whose names are without
    repetition and are, as a set, the row's syscall group; default
    action and architectures are kept and the admin flag is raised
    exactly for [CAP_SYS_ADMIN].  If the table has no row for [c], the
    pass changes nothing.  The whole loop, and with it
    [DefaultProfile], appends exactly one such rule for each occurrence
    of a token of the table, in the order of the bounding set, and
    nothing for the other tokens; it has no failure result. *)
Theorem capability_table_refines c :
  match specGroup specCapabilityTable c with
  | Some group =>
      exists names,
        NoDup names /\
        (forall n, In n names <-> In n group) /\
        forall s admin,
          Syscalls (fst (seccomp.capabilityCase (s, admin) c))
          = Syscalls s
              ++ [{| Names := names; Action := ActAllow; ErrnoRet := None;
                     Args := [] |}] /\
          DefaultAction (fst (seccomp.capabilityCase (s, admin) c))
          = DefaultAction s /\
          Architectures (fst (seccomp.capabilityCase (s, admin) c))
          = Architectures s /\
          snd (seccomp.capabilityCase (s, admin) c)
          = admin || (c =? "CAP_SYS_ADMIN")
  | None => forall st, seccomp.capabilityCase st c = st
  end /\
  (forall b s,
     (exists rules,
        Syscalls (fst (seccomp.capabilityLoop b s)) = Syscalls s ++ rules /\
        Forall2 ruleFor rules (filter recognised b)) /\
     DefaultAction (fst (seccomp.capabilityLoop b s)) = DefaultAction s /\
     Architectures (fst (seccomp.capabilityLoop b s)) = Architectures s /\
     snd (seccomp.capabilityLoop b s) = hasAdmin b) /\
  (forall GOARCH GreaterEqualThan sp b,
     boundingOf sp = Some b ->
     exists s rules,
       seccomp.DefaultProfile GOARCH GreaterEqualThan sp = Returned s /\
       Syscalls s
       = (seccomp.syscalls ++ kernelRules GreaterEqualThan ++ archRules GOARCH)
           ++ rules ++ cloneRules GOARCH (hasAdmin b) /\
       Forall2 ruleFor rules (filter recognised b)).
Proof.
  split; [|split].
  - cbn [specGroup specCapabilityTable]. unfold seccomp.capabilityCase.
    switch_cases.
    all: try (intros [s admin]; reflexivity).
    all: eexists; split; [|split]; revgoals;
      [ intros s admin; cbn; rewrite ?orb_false_r, ?orb_true_r;
        repeat split; reflexivity
      | apply sameSet_spec; reflexivity
      | apply nodupb_spec; reflexivity ].
  - intros b s.
    destruct (capabilityLoop_appends b s) as (Hd & Ha & Hs & Hadm).
    split; [|auto].
    exists (flat_map capabilityRules b). split; [exact Hs|].
    apply flat_map_ruleFor.
  - intros GOARCH GreaterEqualThan sp b Hb.
    exists (profile GOARCH GreaterEqualThan b), (flat_map capabilityRules b).
    split; [now apply DefaultProfile_returns|].
    split; [apply profileRules_blocks|apply flat_map_ruleFor].
Qed.

Lemma capability_table_refines_witness :
  exists s rule,
    seccomp.DefaultProfile "amd64" (fun _ => (false, None))
      (specWith ["CAP_FOWNER"; "CAP_SYS_MODULE"]) = Returned s /\
    Syscalls s
    = (seccomp.syscalls ++ archRules "amd64")
        ++ [rule] ++ cloneRules "amd64" false /\
    Action rule = ActAllow /\ Args rule = [] /\
    (forall n, In n (Names rule) <->
               In n ["init_module"; "finit_module"; "delete_module"]).
Proof.
  destruct (capability_table_refines "CAP_SYS_MODULE") as (_ & _ & Hprofile).
  destruct (Hprofile "amd64" (fun _ => (false, None))
              (specWith ["CAP_FOWNER"; "CAP_SYS_MODULE"])
              ["CAP_FOWNER"; "CAP_SYS_MODULE"] eq_refl)
    as (s & rules & Hs & Hrules & Hfor).
  cbn in Hfor. inversion Hfor as [|r c0 rest l0 Hr Hrest]; subst.
  inversion Hrest; subst.
  destruct Hr as (group & Hgroup & Hallow & _ & Hargs & _ & Hset).
  cbn in Hgroup. injection Hgroup as <-.
  exists s, r. repeat split; try assumption; apply Hset.
Defined.

(** ** Repeated tokens *)

(** C8, as stated, fails: with [CAP_SYS_BOOT] twice in the bounding
    set the policy has the [reboot] rule twice, so its rules are not a
    permutation of the rules obtained with [CAP_SYS_BOOT] once. *)
Lemma duplicate_token_not_idempotent :
  exists once twice,
    seccomp.DefaultProfile "amd64" (fun _ => (true, None))
      (specWith ["CAP_SYS_BOOT"]) = Returned once /\
    seccomp.DefaultProfile "amd64" (fun _ => (true, None))
      (specWith ["CAP_SYS_BOOT"; "CAP_SYS_BOOT"]) = Returned twice /\
    List.length (Syscalls once) = 12%nat /\
    List.length (Syscalls twice) = 13%nat /\
    ~ Permutation (Syscalls twice) (Syscalls once).
Proof.
  eexists. eexists.
  split; [reflexivity|]. split; [reflexivity|].
  split; [reflexivity|]. split; [reflexivity|].
  intros H. apply Permutation_length in H. discriminate H.
Qed.

(** C8, amended.  Let the bounding set [twice] be [once] with one more
    occurrence of a token [c] that [once] already has, at any position.
    Both policies are returned, with the same default action and the
    same architectures.  If [c] has a row in the table, the rules of
    the second policy are, as a multiset, the rules of the first and
    one more copy of a rule the first already has, the rule of that
    row ([ActAllow], no argument test, the row's syscalls); if [c] has
    no row, the two policies have the same rules as multisets.  In
    both cases the two policies have the same set of rules. *)
Theorem duplicate_token_repeats_rule GOARCH GreaterEqualThan c once twice :
  In c once ->
  Permutation twice (c :: once) ->
  exists s1 s2,
    seccomp.DefaultProfile GOARCH GreaterEqualThan (specWith once) = Returned s1 /\
    seccomp.DefaultProfile GOARCH GreaterEqualThan (specWith twice) = Returned s2 /\
    DefaultAction s2 = DefaultAction s1 /\
    Architectures s2 = Architectures s1 /\
    match specGroup specCapabilityTable c with
    | Some group =>
        exists r,
          grants r group /\
          In r (Syscalls s1) /\
          Permutation (Syscalls s2) (r :: Syscalls s1) /\
          List.length (Syscalls s2) = S (List.length (Syscalls s1))
    | None =>
        Permutation (Syscalls s2) (Syscalls s1) /\
        List.length (Syscalls s2) = List.length (Syscalls s1)
    end /\
    (forall r, In r (Syscalls s2) <-> In r (Syscalls s1)).
Proof.
  intros Hc Hperm.
  exists (profile GOARCH GreaterEqualThan once), (profile GOARCH GreaterEqualThan twice).
  split; [now apply DefaultProfile_returns|].
  split; [now apply DefaultProfile_returns|].
  split; [reflexivity|]. split; [reflexivity|].
  assert (Hadm : hasAdmin twice = hasAdmin once).
  { apply hasAdmin_members. intros x. split; intros Hx.
    - apply (Permutation_in _ Hperm) in Hx. destruct Hx as [<-|Hx]; assumption.
    - apply (Permutation_in _ (Permutation_sym Hperm)). now right. }
  assert (Hrules : Permutation (Syscalls (profile GOARCH GreaterEqualThan twice))
                     (capabilityRules c
                        ++ Syscalls (profile GOARCH GreaterEqualThan once))).
  { cbn [Syscalls profile]. rewrite !profileRules_blocks, Hadm.
    rewrite (Permutation_flat_map capabilityRules Hperm).
    cbn [flat_map]. rewrite <- (app_assoc (capabilityRules c)).
    apply Permutation_app_swap_app. }
  assert (Hsub : forall r, In r (capabilityRules c) ->
                   In r (Syscalls (profile GOARCH GreaterEqualThan once))).
  { intros r Hr. cbn [Syscalls profile]. rewrite profileRules_blocks.
    rewrite !in_app_iff. right. left.
    eapply capabilityRules_in_flat_map; eassumption. }
  split.
  - pose proof (capabilityRules_ruleFor c) as Hfor. unfold recognised in Hfor.
    destruct (specGroup specCapabilityTable c) as [group|] eqn:Hgroup.
    + inversion Hfor as [|r c0 rest l0 Hr Hrest E1 E2]; subst.
      inversion Hrest; subst.
      destruct Hr as (group' & Hgroup' & Hgrants).
      rewrite Hgroup in Hgroup'. injection Hgroup' as <-.
      exists r. split; [exact Hgrants|].
      assert (Hone : capabilityRules c = [r]) by (symmetry; assumption).
      rewrite Hone in Hrules, Hsub.
      split; [apply Hsub; now left|]. split; [exact Hrules|].
      apply Permutation_length in Hrules. exact Hrules.
    + inversion Hfor as [E|]. rewrite <- E in Hrules. cbn [app] in Hrules.
      split; [exact Hrules|]. now apply Permutation_length.
  - intros r. split; intros Hr.
    + apply (Permutation_in _ Hrules) in Hr.
      apply in_app_or in Hr as [Hr|Hr]; [now apply Hsub|assumption].
    + apply (Permutation_in _ (Permutation_sym Hrules)).
      apply in_or_app. now right.
Qed.

Lemma duplicate_token_repeats_rule_witness :
  exists s1 s2 r,
    seccomp.DefaultProfile "amd64" (fun _ => (true, None))
      (specWith ["CAP_CHOWN"; "CAP_SYS_BOOT"]) = Returned s1 /\
    seccomp.DefaultProfile "amd64" (fun _ => (true, None))
      (specWith ["CAP_SYS_BOOT"; "CAP_CHOWN"; "CAP_SYS_BOOT"]) = Returned s2 /\
    grants r ["reboot"] /\
    Permutation (Syscalls s2) (r :: Syscalls s1) /\
    (forall r, In r (Syscalls s2) <-> In r (Syscalls s1)).
Proof.
  destruct (duplicate_token_repeats_rule "amd64" (fun _ => (true, None))
              "CAP_SYS_BOOT" ["CAP_CHOWN"; "CAP_SYS_BOOT"]
              ["CAP_SYS_BOOT"; "CAP_CHOWN"; "CAP_SYS_BOOT"])
    as (s1 & s2 & H1 & H2 & _ & _ & Hrow & Hset).
  - cbn. tauto.
  - apply Permutation_refl.
  - cbn in Hrow. destruct Hrow as (r & Hgrants & _ & Hperm & _).
    exists s1, s2, r. repeat split; try assumption; try apply Hgrants;
      apply Hset.
Defined.

(** ** Nil pointers *)

(** C9, as stated, fails: [DefaultProfile] dereferences
    [sp.Process.Capabilities] without a test, so a specification whose
    [Process] is nil makes it panic instead of returning a policy. *)
Lemma nil_process_panics :
  seccomp.DefaultProfile "amd64" (fun _ => (true, None))
    (Some {| Process := None |})
  = Panicked nilDereference /\
  ~ exists s,
      seccomp.DefaultProfile "amd64" (fun _ => (true, None))
        (Some {| Process := None |}) = Returned s.
Proof.
  split; [reflexivity|]. intros (s & H). discriminate H.
Qed.

(** C9, amended.  [DefaultProfile] has no error result, and whatever
    the architecture string and the answer of the probe, it returns a
    policy for every specification whose [Process] and
    [Process.Capabilities] are set (the bounding list may be empty):
    default action [ActErrno], the architectures of [arches], and a
    non-empty list of rules that starts with the literal [syscalls].
    On a nil [sp], [sp.Process] or [sp.Process.Capabilities] it panics
    with a nil dereference. *)
Theorem returns_when_capabilities_set GOARCH GreaterEqualThan :
  (forall capabilities,
     exists s rest,
       seccomp.DefaultProfile GOARCH GreaterEqualThan
         (Some {| Process := Some {| Capabilities := Some capabilities |} |})
       = Returned s /\
       DefaultAction s = ActErrno /\
       Architectures s = seccomp.arches GOARCH /\
       Syscalls s = seccomp.syscalls ++ rest) /\
  seccomp.DefaultProfile GOARCH GreaterEqualThan None
  = Panicked nilDereference /\
  seccomp.DefaultProfile GOARCH GreaterEqualThan (Some {| Process := None |})
  = Panicked nilDereference /\
  seccomp.DefaultProfile GOARCH GreaterEqualThan
    (Some {| Process := Some {| Capabilities := None |} |})
  = Panicked nilDereference.
Proof.
  split; [|repeat split; now apply DefaultProfile_panics].
  intros capabilities.
  exists (profile GOARCH GreaterEqualThan (Bounding capabilities)).
  eexists. split; [now apply DefaultProfile_returns|].
  split; [reflexivity|]. split; reflexivity.
Qed.

(** * Further properties of the profile *)

(** A call is allowed when a rule with [ActAllow] applies to it. *)
Definition allowed (s : LinuxSeccomp) (c : Call) : bool :=
  existsb isAllow (applicable s c).

(** The shape the runtime specification asks of a rule: some names,
    none twice, argument positions among the six of a syscall, values
    that fit 64 bits, and a return code (a positive errno) on
    [ActErrno] rules only; the profile moreover tests at most one
    argument per rule. *)
Definition argInRange (a : LinuxSeccompArg) : bool :=
  ((0 <=? Index a) && (Index a <? 6)
   && (0 <=? Value a) && (Value a <? 2 ^ 64)
   && (0 <=? ValueTwo a) && (ValueTwo a <? 2 ^ 64))%Z.

Definition wellFormed (r : LinuxSyscall) : bool :=
  match Names r with [] => false | _ :: _ => true end
  && nodupb (Names r)
  && (List.length (Args r) <=? 1)%nat
  && forallb argInRange (Args r)
  && match ErrnoRet r, Action r with
     | None, ActErrno => false
     | None, _ => true
     | Some e, ActErrno => (0 <? e)%Z && (e <? 4096)%Z
     | Some _, _ => false
     end.

Definition hasPtrace (b : list string) : bool :=
  existsb (fun c => c =? "CAP_SYS_PTRACE") b.

Definition probeSaysYes (GreaterEqualThan : kernelversion.probe) : bool :=
  match GreaterEqualThan kv48 with
  | (true, None) => true
  | _ => false
  end.

(** The architectures with a block of their own under
    [// include by arch]. *)
Definition archesWithOwnSyscalls : list string :=
  ["ppc64le"; "arm"; "arm64"; "amd64"; "386"; "s390"; "s390x"; "riscv64"].

Section Meaning.

Lemma profileRules_in g p b r :
  In r (profileRules g p b) <->
  In r seccomp.syscalls \/ In r (kernelRules p) \/ In r (archRules g) \/
  (exists c, In c b /\ In r (capabilityRules c)) \/
  In r (cloneRules g (hasAdmin b)).
Proof.
  unfold profileRules, aheadOfClone.
  rewrite !in_app_iff, in_flat_map. tauto.
Qed.

Lemma allowed_spec s c :
  allowed s c = true <->
  exists r, In r (Syscalls s) /\ isAllow r = true /\ applies c r = true.
Proof.
  unfold allowed, applicable. rewrite existsb_exists. split.
  - intros (r & Hr & Ha). apply filter_In in Hr as [Hr Happ]. eauto.
  - intros (r & Hr & Ha & Happ). exists r. split; [|assumption].
    apply filter_In. auto.
Qed.

Lemma allowed_false s c :
  allowed s c = false <->
  forall r, In r (Syscalls s) -> isAllow r = true -> applies c r = false.
Proof.
  split.
  - intros H r Hr Ha. destruct (applies c r) eqn:E; [|reflexivity].
    assert (allowed s c = true) by (apply allowed_spec; eauto). congruence.
  - intros H. destruct (allowed s c) eqn:E; [|reflexivity].
    apply allowed_spec in E as (r & Hr & Ha & Happ).
    rewrite (H r Hr Ha) in Happ. discriminate.
Qed.

Lemma applies_unconditional c r :
  unconditional r = true -> mentions (callName c) r = true -> applies c r = true.
Proof.
  unfold unconditional, applies. intros H ->.
  apply andb_true_iff in H as [H _]. apply andb_true_iff in H as [_ H].
  destruct (Args r); [reflexivity|discriminate].
Qed.

Lemma applies_mentions c r : applies c r = true -> In (callName c) (Names r).
Proof.
  unfold applies. intros H. apply andb_true_iff in H as [H _].
  now apply mentions_spec.
Qed.

Lemma existsb_eqb_In g l : existsb (String.eqb g) l = true <-> In g l.
Proof.
  rewrite existsb_exists. split.
  - intros (x & Hx & E). apply String.eqb_eq in E. now subst.
  - intros H. exists g. split; [assumption|apply String.eqb_refl].
Qed.

Lemma existsb_Permutation {A} (f : A -> bool) l l' :
  Permutation l l' -> existsb f l = existsb f l'.
Proof.
  induction 1; cbn; try congruence.
  - destruct (f x), (f y); reflexivity.
Qed.

Lemma filter_Permutation {A} (f : A -> bool) l l' :
  Permutation l l' -> Permutation (filter f l) (filter f l').
Proof.
  induction 1; cbn.
  - constructor.
  - destruct (f x); [constructor|]; assumption.
  - destruct (f x), (f y); try apply Permutation_refl; try constructor;
      try apply Permutation_refl. 
  - eapply Permutation_trans; eassumption.
Qed.

End Meaning.

Section ProfileFacts.

Lemma archRules_wellFormed g : forallb wellFormed (archRules g) = true.
Proof. unfold archRules, seccomp.includeByArch. switch_cases; reflexivity. Qed.

Lemma capabilityRules_wellFormed c : forallb wellFormed (capabilityRules c) = true.
Proof. unfold capabilityRules, seccomp.capabilityCase. switch_cases; reflexivity. Qed.

Lemma cloneRules_wellFormed g admin : forallb wellFormed (cloneRules g admin) = true.
Proof.
  destruct admin; [reflexivity|]. rewrite cloneRules_no_admin.
  unfold cloneRestriction, clone3Unimplemented, flagsIndex, unix.ENOSYS.
  switch_cases; reflexivity.
Qed.

Lemma profileRules_wellFormed g p b :
  forallb wellFormed (profileRules g p b) = true.
Proof.
  unfold profileRules. rewrite forallb_app, cloneRules_wellFormed, andb_true_r.
  apply ahead_of_clone.
  - vm_compute. reflexivity.
  - reflexivity.
  - apply archRules_wellFormed.
  - intros c _. apply capabilityRules_wellFormed.
Qed.

Lemma archRules_avoid_gated g :
  forallb (avoids versionGated) (archRules g) = true.
Proof. unfold archRules, seccomp.includeByArch. switch_cases; reflexivity. Qed.

Lemma capabilityRules_avoid_gated c :
  c <> "CAP_SYS_PTRACE" ->
  forallb (avoids versionGated) (capabilityRules c) = true.
Proof.
  intros H. unfold capabilityRules, seccomp.capabilityCase.
  switch_cases; solve [reflexivity | contradiction].
Qed.

Lemma cloneRules_avoid_gated g admin :
  forallb (avoids versionGated) (cloneRules g admin) = true.
Proof.
  destruct admin; [reflexivity|]. rewrite cloneRules_no_admin. reflexivity.
Qed.

Lemma avoids_applies names r c :
  avoids names r = true -> In (callName c) names -> applies c r = false.
Proof.
  intros H Hn. unfold applies.
  pose proof (avoids_mentions _ _ _ H Hn) as E.
  apply negb_true_iff in E. now rewrite E.
Qed.

Lemma hasPtrace_spec b : hasPtrace b = true <-> In "CAP_SYS_PTRACE" b.
Proof.
  unfold hasPtrace. rewrite existsb_exists. split.
  - intros (c & Hc & E). apply String.eqb_eq in E. now subst.
  - intros H. exists "CAP_SYS_PTRACE". split; [assumption|reflexivity].
Qed.

Lemma kernelRules_yes p :
  kernelRules p = if probeSaysYes p then [seccomp.allow versionGated] else [].
Proof.
  rewrite kernelRules_cases. unfold probeSaysYes.
  destruct (p kv48) as [[|] [e|]]; reflexivity.
Qed.

(** The rule of [CAP_SYS_ADMIN] allows [clone] and [clone3] whatever
    the arguments. *)
Lemma admin_allows_clone g p b c :
  hasAdmin b = true ->
  In (callName c) ["clone"; "clone3"] ->
  allowed (profile g p b) c = true.
Proof.
  intros Hadm Hc. apply hasAdmin_spec in Hadm. apply allowed_spec.
  eexists. split; [|split].
  - apply profileRules_in. right. right. right. left.
    exists "CAP_SYS_ADMIN". split; [assumption|]. left. reflexivity.
  - reflexivity.
  - apply applies_unconditional; [reflexivity|].
    destruct Hc as [<-|[<-|[]]]; reflexivity.
Qed.

End ProfileFacts.

(** ** Order and growth of the bounding set *)

(** X1. The order of the bounding set, and every field of the
    specification other than [Bounding], matter only to the order of
    the capability rules: two specifications whose bounding sets are
    permutations of each other get the same default action, the same
    architectures, the same rules up to order, and allow the same
    calls. *)
Theorem bounding_order_irrelevant GOARCH GreaterEqualThan sp sp' b b' :
  boundingOf sp = Some b ->
  boundingOf sp' = Some b' ->
  Permutation b b' ->
  exists s s',
    seccomp.DefaultProfile GOARCH GreaterEqualThan sp = Returned s /\
    seccomp.DefaultProfile GOARCH GreaterEqualThan sp' = Returned s' /\
    DefaultAction s = DefaultAction s' /\
    Architectures s = Architectures s' /\
    Permutation (Syscalls s) (Syscalls s') /\
    (forall c, allowed s c = allowed s' c).
Proof.
  intros Hb Hb' Hperm.
  exists (profile GOARCH GreaterEqualThan b), (profile GOARCH GreaterEqualThan b').
  split; [now apply DefaultProfile_returns|].
  split; [now apply DefaultProfile_returns|].
  split; [reflexivity|]. split; [reflexivity|].
  assert (Hadm : hasAdmin b = hasAdmin b').
  { apply hasAdmin_members. intros x. split; apply Permutation_in;
      [assumption|now apply Permutation_sym]. }
  assert (Hrules : Permutation (profileRules GOARCH GreaterEqualThan b)
                     (profileRules GOARCH GreaterEqualThan b')).
  { rewrite !profileRules_blocks, Hadm.
    apply Permutation_app_head, Permutation_app_tail.
    now apply Permutation_flat_map. }
  split; [exact Hrules|].
  intros c. unfold allowed, applicable. cbn [Syscalls profile].
  apply existsb_Permutation, filter_Permutation, Hrules.
Qed.

Lemma bounding_order_irrelevant_witness :
  exists s s',
    seccomp.DefaultProfile "arm64" (fun _ => (true, None))
      (specWith ["CAP_SYS_TIME"; "CAP_SYS_ADMIN"]) = Returned s /\
    seccomp.DefaultProfile "arm64" (fun _ => (true, None))
      (Some {| Process := Some {| Capabilities := Some
         {| Bounding := ["CAP_SYS_ADMIN"; "CAP_SYS_TIME"];
            Effective := ["CAP_SYS_MODULE"]; Inheritable := [];
            Permitted := ["CAP_SYS_MODULE"]; Ambient := [] |} |} |})
    = Returned s' /\
    Permutation (Syscalls s) (Syscalls s') /\
    (forall c, allowed s c = allowed s' c).
Proof.
  destruct (bounding_order_irrelevant "arm64" (fun _ => (true, None))
              (specWith ["CAP_SYS_TIME"; "CAP_SYS_ADMIN"])
              (Some {| Process := Some {| Capabilities := Some
                 {| Bounding := ["CAP_SYS_ADMIN"; "CAP_SYS_TIME"];
                    Effective := ["CAP_SYS_MODULE"]; Inheritable := [];
                    Permitted := ["CAP_SYS_MODULE"]; Ambient := [] |} |} |})
              ["CAP_SYS_TIME"; "CAP_SYS_ADMIN"] ["CAP_SYS_ADMIN"; "CAP_SYS_TIME"]
              eq_refl eq_refl (perm_swap _ _ _))
    as (s & s' & H & H' & _ & _ & Hperm & Hall).
  exists s, s'. repeat split; assumption.
Defined.

(** X2. Privileges only grow: if the bounding set gets more tokens, or the
    probe turns from "no" or an error to "yes", every call that was
    allowed stays allowed. *)
Theorem allowed_calls_grow GOARCH p p' sp sp' b b' :
  boundingOf sp = Some b ->
  boundingOf sp' = Some b' ->
  incl b b' ->
  (probeSaysYes p = true -> probeSaysYes p' = true) ->
  exists s s',
    seccomp.DefaultProfile GOARCH p sp = Returned s /\
    seccomp.DefaultProfile GOARCH p' sp' = Returned s' /\
    (forall c, allowed s c = true -> allowed s' c = true).
Proof.
  intros Hb Hb' Hincl Hprobe.
  exists (profile GOARCH p b), (profile GOARCH p' b').
  split; [now apply DefaultProfile_returns|].
  split; [now apply DefaultProfile_returns|].
  intros c Hc. apply allowed_spec in Hc as (r & Hr & Ha & Happ).
  cbn [Syscalls profile] in Hr. apply profileRules_in in Hr.
  destruct Hr as [Hr|[Hr|[Hr|[(c0 & Hc0 & Hr)|Hr]]]].
  - apply allowed_spec. exists r. repeat split; try assumption.
    apply profileRules_in. auto.
  - apply allowed_spec. exists r. repeat split; try assumption.
    apply profileRules_in. right. left.
    rewrite kernelRules_yes in *. destruct (probeSaysYes p); [|destruct Hr].
    now rewrite Hprobe.
  - apply allowed_spec. exists r. repeat split; try assumption.
    apply profileRules_in. auto.
  - apply allowed_spec. exists r. repeat split; try assumption.
    apply profileRules_in. right. right. right. left. exists c0. auto.
  - destruct (hasAdmin b) eqn:Hadm; [destruct Hr|].
    rewrite cloneRules_no_admin in Hr.
    destruct Hr as [<-|[<-|[]]]; [|discriminate Ha].
    destruct (hasAdmin b') eqn:Hadm'.
    + apply admin_allows_clone; [assumption|].
      apply applies_mentions in Happ. cbn in Happ. cbn. tauto.
    + apply allowed_spec. exists (cloneRestriction GOARCH).
      repeat split; try assumption.
      apply profileRules_in. right. right. right. right.
      rewrite Hadm', cloneRules_no_admin. now left.
Qed.

Lemma allowed_calls_grow_witness :
  exists s s',
    seccomp.DefaultProfile "amd64"
      (fun _ => (false, Some "unexpected format")) (specWith ["CAP_CHOWN"])
    = Returned s /\
    seccomp.DefaultProfile "amd64" (fun _ => (true, None))
      (specWith ["CAP_SYS_ADMIN"; "CAP_CHOWN"]) = Returned s' /\
    (forall c, allowed s c = true -> allowed s' c = true).
Proof.
  apply (allowed_calls_grow "amd64" (fun _ => (false, Some "unexpected format"))
           (fun _ => (true, None)) (specWith ["CAP_CHOWN"])
           (specWith ["CAP_SYS_ADMIN"; "CAP_CHOWN"])
           ["CAP_CHOWN"] ["CAP_SYS_ADMIN"; "CAP_CHOWN"] eq_refl eq_refl).
  - intros x [<-|[]]. cbn. tauto.
  - reflexivity.
Defined.

(** ** What the policy answers to a call *)

(** X3. Creating a process: with [CAP_SYS_ADMIN] in the bounding set every
    [clone] and [clone3] call is allowed; without it a [clone] call is
    allowed exactly when its flags argument (argument 1 on s390 and
    s390x, argument 0 elsewhere) has none of the bits [0x7e020000], and
    no [clone3] call is allowed. *)
Theorem clone_allowed_iff GOARCH GreaterEqualThan sp b :
  boundingOf sp = Some b ->
  exists s,
    seccomp.DefaultProfile GOARCH GreaterEqualThan sp = Returned s /\
    (forall c, callName c = "clone" ->
       allowed s c
       = hasAdmin b
         || (Z.land (argument c (flagsIndex GOARCH)) 0x7e020000 =? 0)%Z) /\
    (forall c, callName c = "clone3" -> allowed s c = hasAdmin b).
Proof.
  intros Hb. exists (profile GOARCH GreaterEqualThan b).
  split; [now apply DefaultProfile_returns|].
  destruct (hasAdmin b) eqn:Hadm.
  - split; intros c Hc; cbn [orb]; apply admin_allows_clone; try assumption;
      rewrite Hc; cbn; tauto.
  - pose proof (aheadOfClone_avoids_clone GOARCH GreaterEqualThan b Hadm) as Hav.
    assert (Hnone : forall c n, callName c = n -> In n ["clone"; "clone3"] ->
              filter (applies c) (aheadOfClone GOARCH GreaterEqualThan b) = []).
    { intros c n Hc Hn. apply filter_none.
      eapply forallb_weaken; [|exact Hav].
      intros r Hr. cbn beta. erewrite avoids_applies; try eassumption.
      - reflexivity.
      - now rewrite Hc. }
    split; intros c Hc; unfold allowed, applicable; cbn [Syscalls profile orb];
      unfold profileRules; rewrite Hadm, cloneRules_no_admin, filter_app.
    + rewrite (Hnone c "clone" Hc) by (cbn; tauto).
      cbn [app filter]. unfold applies, mentions. rewrite Hc.
      cbn [cloneRestriction clone3Unimplemented oneTest Names Args existsb
             String.eqb Ascii.eqb Bool.eqb andb orb forallb argHolds Index
             Value ValueTwo Op fold_right namespaceFlags].
      destruct (Z.land _ _ =? 0)%Z; reflexivity.
    + rewrite (Hnone c "clone3" Hc) by (cbn; tauto).
      cbn [app filter]. unfold applies, mentions. rewrite Hc. reflexivity.
Qed.

Lemma clone_allowed_iff_witness :
  exists s,
    seccomp.DefaultProfile "s390x" (fun _ => (true, None))
      (specWith ["CAP_NET_ADMIN"]) = Returned s /\
    allowed s {| callName := "clone"; callArgs := [0; 0x10000000]%Z |} = false /\
    allowed s {| callName := "clone"; callArgs := [0x10000000; 0x11]%Z |} = true.
Proof.
  destruct (clone_allowed_iff "s390x" (fun _ => (true, None))
              (specWith ["CAP_NET_ADMIN"]) ["CAP_NET_ADMIN"] eq_refl)
    as (s & Hs & Hclone & _).
  exists s. split; [exact Hs|]. split.
  - exact (Hclone {| callName := "clone"; callArgs := [0; 0x10000000]%Z |} eq_refl).
  - exact (Hclone {| callName := "clone"; callArgs := [0x10000000; 0x11]%Z |} eq_refl).
Defined.

(** X4. Tracing: a [ptrace], [process_vm_readv] or [process_vm_writev]
    call is allowed exactly when the probe answered [(true, nil)] or
    [CAP_SYS_PTRACE] is in the bounding set; the arguments play no
    part. *)
Theorem ptrace_allowed_iff GOARCH GreaterEqualThan sp b :
  boundingOf sp = Some b ->
  exists s,
    seccomp.DefaultProfile GOARCH GreaterEqualThan sp = Returned s /\
    forall c, In (callName c) versionGated ->
      allowed s c = probeSaysYes GreaterEqualThan || hasPtrace b.
Proof.
  intros Hb. exists (profile GOARCH GreaterEqualThan b).
  split; [now apply DefaultProfile_returns|].
  intros c Hc.
  destruct (probeSaysYes GreaterEqualThan || hasPtrace b) eqn:E.
  - apply allowed_spec. apply orb_true_iff in E as [E|E].
    + exists (seccomp.allow versionGated). split; [|split].
      * apply profileRules_in. right. left. rewrite kernelRules_yes, E. now left.
      * reflexivity.
      * apply applies_unconditional; [reflexivity|]. now apply mentions_spec.
    + apply hasPtrace_spec in E. eexists. split; [|split].
      * apply profileRules_in. right. right. right. left.
        exists "CAP_SYS_PTRACE". split; [assumption|]. left. reflexivity.
      * reflexivity.
      * apply applies_unconditional; [reflexivity|]. apply mentions_spec.
        cbn in *. tauto.
  - apply orb_false_iff in E as [Ep Ec]. apply allowed_false.
    intros r Hr _. cbn [Syscalls profile] in Hr. apply profileRules_in in Hr.
    assert (Hav : avoids versionGated r = true);
      [|eapply avoids_applies; eassumption].
    destruct Hr as [Hr|[Hr|[Hr|[(c0 & Hc0 & Hr)|Hr]]]].
    + revert r Hr. apply forallb_forall. reflexivity.
    + rewrite kernelRules_yes, Ep in Hr. destruct Hr.
    + revert r Hr. apply forallb_forall. apply archRules_avoid_gated.
    + revert r Hr. apply forallb_forall. apply capabilityRules_avoid_gated.
      intros ->. apply hasPtrace_spec in Hc0. congruence.
    + revert r Hr. apply forallb_forall. apply cloneRules_avoid_gated.
Qed.

Lemma ptrace_allowed_iff_witness :
  exists s,
    seccomp.DefaultProfile "amd64" (fun _ => (false, None))
      (specWith ["CAP_SYS_PTRACE"]) = Returned s /\
    allowed s {| callName := "ptrace"; callArgs := [16; 4242; 0; 0]%Z |} = true.
Proof.
  destruct (ptrace_allowed_iff "amd64" (fun _ => (false, None))
              (specWith ["CAP_SYS_PTRACE"]) ["CAP_SYS_PTRACE"] eq_refl)
    as (s & Hs & Hcall).
  exists s. split; [exact Hs|].
  apply (Hcall {| callName := "ptrace"; callArgs := [16; 4242; 0; 0]%Z |}).
  cbn. tauto.
Defined.

(** X5. The catalogue is unconditional: a call to any syscall of the first
    literal rule is allowed whatever the architecture, the probe, the
    bounding set and the arguments. *)
Theorem catalogue_always_allowed GOARCH GreaterEqualThan sp b :
  boundingOf sp = Some b ->
  exists s,
    seccomp.DefaultProfile GOARCH GreaterEqualThan sp = Returned s /\
    forall c, In (callName c) seccomp.baseNames -> allowed s c = true.
Proof.
  intros Hb. exists (profile GOARCH GreaterEqualThan b).
  split; [now apply DefaultProfile_returns|].
  intros c Hc. apply allowed_spec. exists (seccomp.allow seccomp.baseNames).
  split; [|split].
  - apply profileRules_in. left. now left.
  - reflexivity.
  - apply applies_unconditional; [reflexivity|]. now apply mentions_spec.
Qed.

Lemma catalogue_always_allowed_witness :
  exists s,
    seccomp.DefaultProfile "plan9" (fun _ => (false, Some "no kernel"))
      (specWith []) = Returned s /\
    allowed s {| callName := "openat"; callArgs := [-100; 0; 0; 0]%Z |} = true.
Proof.
  destruct (catalogue_always_allowed "plan9" (fun _ => (false, Some "no kernel"))
              (specWith []) [] eq_refl)
    as (s & Hs & Hcall).
  exists s. split; [exact Hs|].
  apply (Hcall {| callName := "openat"; callArgs := [-100; 0; 0; 0]%Z |}).
  apply (proj1 (mentions_spec "openat" (seccomp.allow seccomp.baseNames))).
  vm_compute. reflexivity.
Defined.

(** X6. The rules never disagree on a call: all the rules that apply to
    one call have the same action and the same return code, so the
    answer of the policy does not depend on which of them is tried
    first. *)
Theorem applicable_rules_agree GOARCH GreaterEqualThan sp b :
  boundingOf sp = Some b ->
  exists s,
    seccomp.DefaultProfile GOARCH GreaterEqualThan sp = Returned s /\
    forall c r1 r2,
      In r1 (applicable s c) -> In r2 (applicable s c) ->
      Action r1 = Action r2 /\ ErrnoRet r1 = ErrnoRet r2.
Proof.
  intros Hb. exists (profile GOARCH GreaterEqualThan b).
  split; [now apply DefaultProfile_returns|].
  assert (Hshape : forall c r, In r (applicable (profile GOARCH GreaterEqualThan b) c) ->
            (Action r = ActAllow /\ ErrnoRet r = None) \/
            (r = clone3Unimplemented GOARCH /\ callName c = "clone3"
             /\ hasAdmin b = false)).
  { intros c r Hr. apply filter_In in Hr as [Hr Happ].
    cbn [Syscalls profile] in Hr.
    pose proof (profileRules_wellFormed GOARCH GreaterEqualThan b) as Hwf.
    rewrite forallb_forall in Hwf. specialize (Hwf r Hr).
    destruct (isAllow r) eqn:Ha.
    - left. unfold wellFormed in Hwf. unfold isAllow in Ha.
      apply andb_true_iff in Hwf as [_ Hwf].
      destruct (Action r); try discriminate.
      destruct (ErrnoRet r); [discriminate|auto].
    - right. unfold profileRules in Hr. apply in_app_or in Hr as [Hr|Hr].
      + pose proof (aheadOfClone_allow GOARCH GreaterEqualThan b) as Hall.
        rewrite forallb_forall in Hall. rewrite (Hall r Hr) in Ha. discriminate.
      + destruct (hasAdmin b); [destruct Hr|].
        rewrite cloneRules_no_admin in Hr.
        destruct Hr as [<-|[<-|[]]]; [discriminate Ha|].
        apply applies_mentions in Happ. cbn in Happ.
        repeat split. intuition congruence. }
  assert (Honly : forall c r, callName c = "clone3" -> hasAdmin b = false ->
            In r (applicable (profile GOARCH GreaterEqualThan b) c) ->
            r = clone3Unimplemented GOARCH).
  { intros c r Hc Hadm Hr. apply filter_In in Hr as [Hr Happ].
    cbn [Syscalls profile] in Hr. unfold profileRules in Hr.
    apply in_app_or in Hr as [Hr|Hr].
    - pose proof (aheadOfClone_avoids_clone GOARCH GreaterEqualThan b Hadm) as Hav.
      rewrite forallb_forall in Hav.
      rewrite (avoids_applies _ _ _ (Hav r Hr)) in Happ; [discriminate|].
      rewrite Hc. cbn. tauto.
    - rewrite Hadm, cloneRules_no_admin in Hr.
      destruct Hr as [<-|[<-|[]]]; [|reflexivity].
      apply applies_mentions in Happ. rewrite Hc in Happ.
      cbn in Happ. intuition discriminate. }
  intros c r1 r2 H1 H2.
  destruct (Hshape c r1 H1) as [[A1 E1]|(-> & Hc & Hadm)].
  - destruct (Hshape c r2 H2) as [[A2 E2]|(-> & Hc & Hadm)].
    + split; congruence.
    + rewrite (Honly c r1 Hc Hadm H1). auto.
  - rewrite (Honly c r2 Hc Hadm H2). auto.
Qed.

Lemma applicable_rules_agree_witness :
  exists s,
    seccomp.DefaultProfile "amd64" (fun _ => (true, None))
      (specWith ["CAP_SYSLOG"; "CAP_SYS_ADMIN"]) = Returned s /\
    forall r1 r2,
      In r1 (applicable s {| callName := "syslog"; callArgs := [3]%Z |}) ->
      In r2 (applicable s {| callName := "syslog"; callArgs := [3]%Z |}) ->
      Action r1 = Action r2 /\ ErrnoRet r1 = ErrnoRet r2.
Proof.
  destruct (applicable_rules_agree "amd64" (fun _ => (true, None))
              (specWith ["CAP_SYSLOG"; "CAP_SYS_ADMIN"])
              ["CAP_SYSLOG"; "CAP_SYS_ADMIN"] eq_refl)
    as (s & Hs & Hagree).
  exists s. split; [exact Hs|]. apply Hagree.
Defined.

(** ** Shape and size of the policy *)

(** X7. Every rule of every returned policy is well formed: it has at
    least one name and no name twice, at most one argument test, whose
    index is below 6 and whose values fit 64 bits, and it carries a
    return code exactly when its action is [ActErrno]. *)
Theorem rules_well_formed GOARCH GreaterEqualThan sp b :
  boundingOf sp = Some b ->
  exists s,
    seccomp.DefaultProfile GOARCH GreaterEqualThan sp = Returned s /\
    forall r, In r (Syscalls s) ->
      Names r <> [] /\
      NoDup (Names r) /\
      (List.length (Args r) <= 1)%nat /\
      (forall a, In a (Args r) ->
         0 <= Index a < 6 /\ 0 <= Value a < 2 ^ 64 /\ 0 <= ValueTwo a < 2 ^ 64)%Z /\
      (ErrnoRet r <> None <-> Action r = ActErrno).
Proof.
  intros Hb. exists (profile GOARCH GreaterEqualThan b).
  split; [now apply DefaultProfile_returns|].
  intros r Hr. cbn [Syscalls profile] in Hr.
  pose proof (profileRules_wellFormed GOARCH GreaterEqualThan b) as Hwf.
  rewrite forallb_forall in Hwf. specialize (Hwf r Hr).
  unfold wellFormed in Hwf. rewrite !andb_true_iff in Hwf.
  destruct Hwf as ((((Hne & Hnd) & Hlen) & Hargs) & Hret).
  split; [|split; [|split; [|split]]].
  - destruct (Names r); [discriminate|discriminate].
  - now apply nodupb_spec.
  - now apply Nat.leb_le.
  - intros a Ha. rewrite forallb_forall in Hargs. specialize (Hargs a Ha).
    unfold argInRange in Hargs. rewrite !andb_true_iff in Hargs.
    rewrite !Z.leb_le, !Z.ltb_lt in Hargs. tauto.
  - destruct (ErrnoRet r), (Action r); try discriminate;
      split; intros H; congruence.
Qed.

Lemma rules_well_formed_witness :
  exists s,
    seccomp.DefaultProfile "mips64" (fun _ => (true, None))
      (specWith ["CAP_SYS_NICE"]) = Returned s /\
    forall r, In r (Syscalls s) ->
      Names r <> [] /\ NoDup (Names r) /\ (List.length (Args r) <= 1)%nat.
Proof.
  destruct (rules_well_formed "mips64" (fun _ => (true, None))
              (specWith ["CAP_SYS_NICE"]) ["CAP_SYS_NICE"] eq_refl)
    as (s & Hs & Hwf).
  exists s. split; [exact Hs|].
  intros r Hr. destruct (Hwf r Hr) as (H1 & H2 & H3 & _). auto.
Defined.

(** X8. The two architecture switches do not list the same architectures.
    The block under [// include by arch] adds at most one rule, and
    one exactly for ppc64le, arm, arm64, amd64, 386, s390, s390x and
    riscv64.  Of these, ppc64le, arm, 386 and s390 are unknown to
    [arches]: their policy carries architecture-specific syscalls and
    an empty [Architectures]; no other architecture string does. *)
Theorem arch_block_without_architectures GOARCH GreaterEqualThan sp b :
  boundingOf sp = Some b ->
  exists s,
    seccomp.DefaultProfile GOARCH GreaterEqualThan sp = Returned s /\
    incl (archRules GOARCH) (Syscalls s) /\
    (List.length (archRules GOARCH) <= 1)%nat /\
    (archRules GOARCH <> [] <-> In GOARCH archesWithOwnSyscalls) /\
    (Architectures s = [] /\ archRules GOARCH <> [] <->
     In GOARCH ["ppc64le"; "arm"; "386"; "s390"]).
Proof.
  intros Hb. exists (profile GOARCH GreaterEqualThan b).
  split; [now apply DefaultProfile_returns|].
  assert (Hown : forall l : list LinuxSyscall, (exists r, l = [r]) \/ l = [] ->
            (l <> [] <-> (match l with [] => false | _ :: _ => true end) = true)).
  { intros l [(r & E)|E]; subst l; split; intros H; congruence. }
  split; [|split; [|split]].
  - intros r Hr. apply profileRules_in. auto.
  - unfold archRules, seccomp.includeByArch. switch_cases; cbn; lia.
  - rewrite <- existsb_eqb_In, Hown.
    + unfold archesWithOwnSyscalls, archRules, seccomp.includeByArch.
      cbn [existsb]. switch_cases; reflexivity.
    + unfold archRules, seccomp.includeByArch. switch_cases; cbn; eauto.
  - rewrite <- existsb_eqb_In, Hown.
    + cbn [Architectures profile existsb].
      unfold seccomp.arches, archRules, seccomp.includeByArch.
      switch_cases; cbn; split; intros H;
        solve [ discriminate | reflexivity | destruct H; congruence
              | split; [reflexivity|discriminate]
              | split; reflexivity ].
    + unfold archRules, seccomp.includeByArch. switch_cases; cbn; eauto.
Qed.

Lemma arch_block_without_architectures_witness :
  exists s,
    seccomp.DefaultProfile "arm" (fun _ => (true, None)) (specWith [])
    = Returned s /\
    Architectures s = [] /\
    In (seccomp.allow ["arm_fadvise64_64"; "arm_sync_file_range";
                       "sync_file_range2"; "breakpoint"; "cacheflush"; "set_tls"])
       (Syscalls s).
Proof.
  destruct (arch_block_without_architectures "arm" (fun _ => (true, None))
              (specWith []) [] eq_refl)
    as (s & Hs & Hincl & _ & _ & Hempty).
  exists s. split; [exact Hs|].
  split.
  - apply Hempty. cbn. tauto.
  - apply Hincl. left. reflexivity.
Defined.

(** X9. The number of rules: the seven of the literal, one when the probe
    says yes, one on an architecture with a block of its own, one for
    each occurrence of a recognised token in the bounding set, and the
    two [clone] rules unless [CAP_SYS_ADMIN] is there.  So the policy
    has between 7 and [11 + len(bounding)] rules. *)
Theorem rule_count GOARCH GreaterEqualThan sp b :
  boundingOf sp = Some b ->
  exists s,
    seccomp.DefaultProfile GOARCH GreaterEqualThan sp = Returned s /\
    List.length (Syscalls s)
    = (7 + Nat.b2n (probeSaysYes GreaterEqualThan)
       + Nat.b2n (existsb (String.eqb GOARCH) archesWithOwnSyscalls)
       + List.length (filter recognised b)
       + (if hasAdmin b then 0 else 2))%nat /\
    (7 <= List.length (Syscalls s) <= 11 + List.length b)%nat.
Proof.
  intros Hb. exists (profile GOARCH GreaterEqualThan b).
  split; [now apply DefaultProfile_returns|].
  assert (Hcaps : List.length (flat_map capabilityRules b)
                  = List.length (filter recognised b)).
  { clear Hb. induction b as [|c b IH]; [reflexivity|].
    cbn [flat_map filter]. rewrite length_app, IH.
    assert (Hc : List.length (capabilityRules c) = Nat.b2n (recognised c)).
    { unfold recognised, capabilityRules, seccomp.capabilityCase.
      cbn [specGroup specCapabilityTable]. switch_cases; reflexivity. }
    rewrite Hc. destruct (recognised c); cbn; lia. }
  assert (Harch : List.length (archRules GOARCH)
                  = Nat.b2n (existsb (String.eqb GOARCH) archesWithOwnSyscalls)).
  { unfold archRules, seccomp.includeByArch, archesWithOwnSyscalls.
    cbn [existsb]. switch_cases; reflexivity. }
  assert (Hlen : List.length (Syscalls (profile GOARCH GreaterEqualThan b))
    = (7 + Nat.b2n (probeSaysYes GreaterEqualThan)
       + Nat.b2n (existsb (String.eqb GOARCH) archesWithOwnSyscalls)
       + List.length (filter recognised b)
       + (if hasAdmin b then 0 else 2))%nat).
  { cbn [Syscalls profile]. unfold profileRules, aheadOfClone.
    rewrite !length_app, Hcaps, Harch, kernelRules_yes.
    change (List.length seccomp.syscalls) with 7%nat.
    destruct (probeSaysYes GreaterEqualThan), (hasAdmin b);
      [rewrite cloneRules_admin | rewrite cloneRules_no_admin
      | rewrite cloneRules_admin | rewrite cloneRules_no_admin]; cbn; lia. }
  split; [exact Hlen|]. rewrite Hlen.
  pose proof (filter_length_le recognised b).
  destruct (probeSaysYes GreaterEqualThan), (existsb _ archesWithOwnSyscalls),
    (hasAdmin b); cbn; lia.
Qed.

Lemma rule_count_witness :
  exists s,
    seccomp.DefaultProfile "amd64" (fun _ => (true, None))
      (specWith ["CAP_CHOWN"; "CAP_SYS_BOOT"; "CAP_SYS_BOOT"]) = Returned s /\
    List.length (Syscalls s) = 13%nat.
Proof.
  destruct (rule_count "amd64" (fun _ => (true, None))
              (specWith ["CAP_CHOWN"; "CAP_SYS_BOOT"; "CAP_SYS_BOOT"])
              ["CAP_CHOWN"; "CAP_SYS_BOOT"; "CAP_SYS_BOOT"] eq_refl)
    as (s & Hs & Hlen & _).
  exists s. split; [exact Hs|exact Hlen].
Defined.

(** * Package [rootfs]: [CreateDiff]

    [CreateDiff] talks to two interface values, a
    [snapshots.Snapshotter] and a [diff.Comparer], and registers
    deferred clean-ups.  It is embedded as a program over the calls it
    makes; program and calls are data, an interpreter runs a program
    against any behaviour of the two interfaces.  The [context.Context]
    is only passed along and is left out. *)

Module snapshots.

Inductive SnapshotKind : Type :=
| KindUnknown | KindView | KindActive | KindCommitted.

(** The fields of [snapshots.Info] that [CreateDiff] reads, and the
    name. *)
Record Info : Type := {
  Kind : SnapshotKind;
  Name : string;
  Parent : string
}.

End snapshots.

Module mount.

Record Mount : Type := {
  Type_ : string;
  Source : string;
  Options : list string
}.

End mount.

Module imagespec.

Record Descriptor : Type := {
  MediaType : string;
  Digest : string;
  Size : Z
}.

End imagespec.

Module rootfs.

Import snapshots.

(** A Go [error], kept as its message; [None] is [nil]. *)
Definition error : Type := string.

(** A [diff.Opt] is a function value that [CreateDiff] hands on
    untouched; it is kept as a label. *)
Definition Opt : Type := string.

(** The calls [CreateDiff] makes: the four methods of the snapshotter
    it uses, [Compare] of the comparer, and the package's
    [uniquePart]. *)
Inductive call : Type :=
| Stat (key : string)
| View (key parent : string)
| Mounts (key : string)
| Remove (key : string)
| Compare (lower upper : list mount.Mount) (opts : list Opt)
| uniquePart.

(** What each call returns, as the Go signatures have it. *)
Definition answer (c : call) : Type :=
  match c with
  | Stat _ => (Info * option error)%type
  | View _ _ => (list mount.Mount * option error)%type
  | Mounts _ => (list mount.Mount * option error)%type
  | Remove _ => option error
  | Compare _ _ _ => (imagespec.Descriptor * option error)%type
  | uniquePart => string
  end.

(** The body of a Go function: it returns, makes a call and goes on
    with the answer, or registers a deferred function and goes on. *)
Inductive prog (A : Type) : Type :=
| Return (a : A)
| Do (c : call) (k : answer c -> prog A)
| Defer (deferred : prog unit) (k : prog A).

Arguments Return {A} a.
Arguments Do {A} c k.
Arguments Defer {A} deferred k.

(** [imagespec.Descriptor{}] *)
Definition zeroDescriptor : imagespec.Descriptor :=
  {| imagespec.MediaType := ""; imagespec.Digest := ""; imagespec.Size := 0 |}.

(** [cleanup.Do(ctx, func(ctx) { sn.Remove(ctx, key) })]: [cleanup.Do]
    runs the function it is given, under a context of its own; the
    function drops what [Remove] returns. *)
Definition removeView (key : string) : prog unit :=
  Do (Remove key) (fun _ => Return tt).

Definition isActive (k : SnapshotKind) : bool :=
  match k with KindActive => true | _ => false end.

(** [CreateDiff] creates a layer diff for the given snapshot identifier
    from the parent of the snapshot. *)
Definition CreateDiff (snapshotID : string) (opts : list Opt)
  : prog (imagespec.Descriptor * option error) :=
  Do (Stat snapshotID) (fun '(info, err) =>
  match err with
  | Some e => Return (zeroDescriptor, Some e)
  | None =>
  Do uniquePart (fun u : string =>
  let lowerKey := (Parent info ++ "-parent-view-" ++ u)%string in
  Do (View lowerKey (Parent info)) (fun '(lower, err) =>
  match err with
  | Some e => Return (zeroDescriptor, Some e)
  | None =>
  Defer (removeView lowerKey)
  (let compare upper := Do (Compare lower upper opts) Return in
   if isActive (Kind info) then
     Do (Mounts snapshotID) (fun '(upper, err) =>
     match err with
     | Some e => Return (zeroDescriptor, Some e)
     | None => compare upper
     end)
   else
     Do uniquePart (fun u' : string =>
     let upperKey := (snapshotID ++ "-view-" ++ u')%string in
     Do (View upperKey snapshotID) (fun '(upper, err) =>
     match err with
     | Some e => Return (zeroDescriptor, Some e)
     | None => Defer (removeView upperKey) (compare upper)
     end)))
  end))
  end).

(** *** Running a program *)

(** One entry of the record of a run: a call and its answer. *)
Record event : Type := {
  called : call;
  answered : answer called
}.

Section Run.

(** The state behind the two interfaces, and their behaviour. *)
Variable World : Type.
Variable behaviour : forall c : call, World -> answer c * World.

(** Runs [p] from the world [w]: the returned value, the world after
    it and the record of the calls, oldest first.  A deferred function
    runs when the rest of the body has returned, so the last one
    registered runs first. *)
Fixpoint run {A : Type} (p : prog A) (w : World) : A * World * list event :=
  match p with
  | Return a => (a, w, [])
  | Do c k =>
      let (r, w1) := behaviour c w in
      let '(a, w2, log) := run (k r) w1 in
      (a, w2, {| called := c; answered := r |} :: log)
  | Defer deferred k =>
      let '(a, w1, log1) := run k w in
      let '(_, w2, log2) := run deferred w1 in
      (a, w2, log1 ++ log2)
  end.

End Run.

(** *** Reading a record *)

Definition failed (r : option error) : bool :=
  match r with Some _ => true | None => false end.

(** The keys of the views a record shows created. *)
Fixpoint viewsCreated (log : list event) : list string :=
  match log with
  | [] => []
  | {| called := View key _; answered := (_, None) |} :: log =>
      key :: viewsCreated log
  | _ :: log => viewsCreated log
  end.

(** The keys a record shows removed. *)
Fixpoint removals (log : list event) : list string :=
  match log with
  | [] => []
  | {| called := Remove key |} :: log => key :: removals log
  | _ :: log => removals log
  end.

Definition isRemove (e : event) : bool :=
  match called e with Remove _ => true | _ => false end.

(** The error of a call that prepares the comparison: [Stat], [View]
    or [Mounts]. *)
Definition setupError (e : event) : option error :=
  match e with
  | {| called := Stat _; answered := (_, err) |} => err
  | {| called := View _ _; answered := (_, err) |} => err
  | {| called := Mounts _; answered := (_, err) |} => err
  | _ => None
  end.

(** The first such error of a record. *)
Fixpoint firstSetupError (log : list event) : option error :=
  match log with
  | [] => None
  | e :: log =>
      match setupError e with
      | Some err => Some err
      | None => firstSetupError log
      end
  end.

Definition isView (c : call) : bool :=
  match c with View _ _ => true | _ => false end.

Definition isMounts (c : call) : bool :=
  match c with Mounts _ => true | _ => false end.

(** The answers of [Compare] in a record. *)
Fixpoint comparisons (log : list event)
  : list (imagespec.Descriptor * option error) :=
  match log with
  | [] => []
  | {| called := Compare _ _ _; answered := r |} :: log => r :: comparisons log
  | _ :: log => comparisons log
  end.

Lemma call_eq_dec (c c' : call) : {c = c'} + {c <> c'}.
Proof.
  pose proof string_dec. pose proof (list_eq_dec string_dec).
  assert (forall m m' : mount.Mount, {m = m'} + {m <> m'})
    by (decide equality).
  pose proof (list_eq_dec H1).
  decide equality.
Defined.

(** The three parts of what [run] gives. *)
Definition result {A World : Type} (r : A * World * list event) : A :=
  fst (fst r).

Definition record {A World : Type} (r : A * World * list event) : list event :=
  snd r.

Section CreateDiffFacts.

Variable World : Type.
Variable behaviour : forall c : call, World -> answer c * World.

(** Splits the run of [CreateDiff] along the answers of the calls. *)
Ltac answers :=
  repeat match goal with
         | |- context [behaviour ?c ?w] =>
             let r := fresh "r" in
             let w' := fresh "w" in
             destruct (behaviour c w) as [r w'] eqn:?; cbn in r;
             repeat match type of r with
                    | (_ * _)%type => destruct r as [? r]
                    | option _ => destruct r
                    end;
             cbn [run removeView app isActive]
         | |- context [isActive ?k] =>
             destruct (isActive k) eqn:?; cbn [run removeView app isActive]
         end.

(** X10. Whatever the snapshotter and the comparer do, the views that
    [CreateDiff] got are removed before it returns, the last one
    first, and nothing else is removed; the removals are the last
    calls of the run. *)
Theorem views_are_removed snapshotID opts w :
  let log := record (run World behaviour (CreateDiff snapshotID opts) w) in
  removals log = rev (viewsCreated log) /\
  exists body cleanup,
    log = body ++ cleanup /\
    forallb (fun e => negb (isRemove e)) body = true /\
    forallb isRemove cleanup = true.
Proof.
  unfold CreateDiff, record. cbn [run].
  answers; cbn; (split; [reflexivity|]).
  all: match goal with
       | |- exists body cleanup, ?l = _ /\ _ =>
           exists (filter (fun e => negb (isRemove e)) l), (filter isRemove l)
       end; cbn; auto.
Qed.

(** X11. What [CreateDiff] returns: [Compare] is called at most once, and
    only when [Stat], the views and [Mounts] all succeeded; then its
    answer, descriptor and error, is returned as it is.  Otherwise the
    first error met is returned with the zero descriptor.  What the
    removals return has no part in the result. *)
Theorem result_is_comparison_or_first_error snapshotID opts w :
  let r := run World behaviour (CreateDiff snapshotID opts) w in
  (List.length (comparisons (record r)) <= 1)%nat /\
  match comparisons (record r) with
  | c :: _ => firstSetupError (record r) = None /\ result r = c
  | [] =>
      exists e, firstSetupError (record r) = Some e /\
                result r = (zeroDescriptor, Some e)
  end.
Proof.
  unfold CreateDiff, record, result. cbn [run].
  answers; cbn; (split; [lia|]); eauto.
Qed.

(** X12. The upper side follows the kind: [Mounts] is called only for an
    active snapshot, for which no second view is made; a snapshot of
    any other kind is never asked for its mounts.  In all, a run makes
    at most two views and at most eight calls, [Stat] first. *)
Theorem upper_side_by_kind snapshotID opts w :
  let calls :=
    map called (record (run World behaviour (CreateDiff snapshotID opts) w)) in
  let info := fst (fst (behaviour (Stat snapshotID) w)) in
  hd_error calls = Some (Stat snapshotID) /\
  (List.length calls <= 8)%nat /\
  (if isActive (Kind info)
   then (List.length (filter isView calls) <= 1)%nat /\
        incl (filter isMounts calls) [Mounts snapshotID]
   else (List.length (filter isView calls) <= 2)%nat /\
        filter isMounts calls = []).
Proof.
  unfold CreateDiff, record. cbn [run].
  destruct (behaviour (Stat snapshotID) w) as [[info [e|]] w1] eqn:?;
    cbn [fst snd run].
  all: answers; cbn [fst snd map called hd_error List.length filter isView isMounts];
    repeat match goal with
           | H : isActive _ = _ |- _ => rewrite H
           end;
    repeat split; try lia; try reflexivity; try congruence;
    try (intros x Hx; exact Hx); try (intros x []).
Qed.

(** X13. The views a run asks for are a view of the snapshot's parent,
    under the key made of the parent's name, ["-parent-view-"] and a
    unique part, and, for a snapshot that is not active, a view of the
    snapshot itself under its name, ["-view-"] and a unique part.  The
    unique part of a key is what [uniquePart] answered in the call
    just before that [View]; each view has a call of [uniquePart] of
    its own. *)
Theorem views_taken snapshotID opts w :
  let log := record (run World behaviour (CreateDiff snapshotID opts) w) in
  let info := fst (fst (behaviour (Stat snapshotID) w)) in
  (forall i e key parent,
     nth_error log i = Some e ->
     called e = View key parent ->
     exists j u,
       i = S j /\
       nth_error log j = Some {| called := uniquePart; answered := u |} /\
       ((parent = Parent info /\
         key = (Parent info ++ "-parent-view-" ++ u)%string) \/
        (parent = snapshotID /\ isActive (Kind info) = false /\
         key = (snapshotID ++ "-view-" ++ u)%string))) /\
  List.length (filter isView (map called log))
  = count_occ call_eq_dec (map called log) uniquePart.
Proof.
  unfold CreateDiff, record. cbn [run].
  destruct (behaviour (Stat snapshotID) w) as [[info [e|]] w1] eqn:?;
    cbn [fst snd run].
  all: answers; cbn [fst snd app]; split; try (cbn; reflexivity).
  all: intros i ev key parent Hn Hc.
  all: repeat (destruct i as [|i]; cbn [nth_error] in Hn;
               try discriminate Hn;
               try (injection Hn as <-; cbn [called] in Hc;
                    first [ discriminate Hc
                          | injection Hc as <- <-;
                            eexists; eexists; split; [reflexivity|];
                            split; [reflexivity|];
                            first [ left; split; reflexivity
                                  | right; split; [reflexivity|];
                                    split; reflexivity ] ])).
Qed.

End CreateDiffFacts.

(** A snapshotter that answers every call with success, the world
    counting the calls: the run for a committed snapshot. *)
Definition scripted (c : call) (n : nat) : answer c * nat :=
  match c with
  | Stat key =>
      (({| Kind := KindCommitted; Name := key; Parent := "base" |}, None), S n)
  | View _ _ => (([], None), S n)
  | Mounts _ => (([], None), S n)
  | Remove _ => (None, S n)
  | Compare _ _ _ =>
      (({| imagespec.MediaType := "application/vnd.oci.image.layer.v1.tar";
           imagespec.Digest := "sha256:aa"; imagespec.Size := 10 |}, None), S n)
  | uniquePart => ("u", S n)
  end.

Example committed_snapshot_run :
  map called (record (run nat scripted (CreateDiff "snap" []) 0))
  = [Stat "snap"; uniquePart; View "base-parent-view-u" "base";
     uniquePart; View "snap-view-u" "snap"; Compare [] [] [];
     Remove "snap-view-u"; Remove "base-parent-view-u"].
Proof. reflexivity. Qed.

End rootfs.

(** * Package [remotes], test support: [memoryLabelStore]

    [memoryLabelStore] keeps [map[digest.Digest]map[string]string]
    behind a mutex.  Go maps are references: [Set] stores the caller's
    map itself, [Get] and [Update] hand out the stored one, and
    [Update] changes it in place.  The embedding therefore has a heap
    of map objects and stores addresses; [None] is the nil map.  Calls
    are taken one at a time, the mutex is left out. *)

Module labelstore.

(** The contents of one [map[string]string]: entries, no key twice. *)
Definition entries : Type := list (string * string).

Fixpoint lookup (k : string) (m : entries) : option string :=
  match m with
  | [] => None
  | (k', v) :: m => if k' =? k then Some v else lookup k m
  end.

(** [delete(m, k)] *)
Definition delete (k : string) (m : entries) : entries :=
  filter (fun e => negb (fst e =? k)) m.

(** [m[k] = v] *)
Definition assign (k v : string) (m : entries) : entries :=
  (k, v) :: delete k m.

(** A value of type [map[string]string]: nil or the address of a map
    object. *)
Definition mapRef : Type := option nat.

(** The map objects of the program, and the next free address. *)
Record heap : Type := {
  object : nat -> entries;
  next : nat
}.

Definition write (a : nat) (m : entries) (h : heap) : heap :=
  {| object := fun a' => if Nat.eqb a' a then m else object h a';
     next := next h |}.

(** [map[string]string{}] *)
Definition makeMap (h : heap) : nat * heap :=
  (next h, {| object := fun a' => if Nat.eqb a' (next h) then [] else object h a';
              next := S (next h) |}).

(** The field [labels]: for each digest, nothing, or a map value
    (which may be nil). *)
Record memoryLabelStore : Type := {
  labels : string -> option mapRef
}.

(** [mls.labels[d] = r] *)
Definition store (d : string) (r : mapRef) (mls : memoryLabelStore)
  : memoryLabelStore :=
  {| labels := fun d' => if d' =? d then Some r else labels mls d' |}.

Definition newMemoryLabelStore : memoryLabelStore :=
  {| labels := fun _ => None |}.

(** [labels := mls.labels[d]]: the zero value, nil, for a digest that
    is not there. *)
Definition Get (d : string) (mls : memoryLabelStore) : mapRef * option string :=
  (match labels mls d with Some r => r | None => None end, None).

Definition Set_ (d : string) (r : mapRef) (mls : memoryLabelStore)
  : option string * memoryLabelStore :=
  (None, store d r mls).

Definition nilMapAssignment : string :=
  "assignment to entry in nil map".

(** The loop [for k, v := range update] of [Update], over the entries
    of [update] in the order the iteration takes them. *)
Fixpoint updateLoop (r : mapRef) (update : entries) (h : heap) : outcome heap :=
  match update with
  | [] => Returned h
  | (k, v) :: update =>
      if v =? "" then
        match r with
        | Some a => updateLoop r update (write a (delete k (object h a)) h)
        | None => updateLoop r update h
        end
      else
        match r with
        | Some a => updateLoop r update (write a (assign k v (object h a)) h)
        | None => Panicked nilMapAssignment
        end
  end.

Definition Update (d : string) (update : entries)
    (st : heap * memoryLabelStore)
  : outcome ((mapRef * option string) * (heap * memoryLabelStore)) :=
  let (h, mls) := st in
  let (r, h) :=
    match labels mls d with
    | Some r => (r, h)
    | None => let (a, h) := makeMap h in (Some a, h)
    end in
  match updateLoop r update h with
  | Returned h => Returned ((r, None), (h, store d r mls))
  | Panicked msg => Panicked msg
  end.

(** *** Reading *)

(** What a map value holds under a key; a nil map holds nothing. *)
Definition valueAt (h : heap) (r : mapRef) (k : string) : option string :=
  match r with
  | Some a => lookup k (object h a)
  | None => None
  end.

(** What [update] asks for a key: nothing, removal, or a value. *)
Definition asked (update : entries) (k : string) (old : option string)
  : option string :=
  match lookup k update with
  | Some v => if v =? "" then None else Some v
  | None => old
  end.

(** Every map value the store holds points into the heap. *)
Definition allocated (st : heap * memoryLabelStore) : Prop :=
  forall d a, labels (snd st) d = Some (Some a) -> a < next (fst st).

Section LabelStoreFacts.

Lemma lookup_delete_same k m : lookup k (delete k m) = None.
Proof.
  induction m as [|[k' v] m IH]; cbn; [reflexivity|].
  destruct (String.eqb_spec k' k); cbn; [assumption|].
  destruct (String.eqb_spec k' k); [contradiction|assumption].
Qed.

Lemma lookup_delete_other k k0 m :
  k0 <> k -> lookup k (delete k0 m) = lookup k m.
Proof.
  intros Hk. induction m as [|[k' v] m IH]; cbn; [reflexivity|].
  destruct (String.eqb_spec k' k0); cbn.
  - destruct (String.eqb_spec k' k); [congruence|assumption].
  - destruct (String.eqb_spec k' k); [reflexivity|assumption].
Qed.

Lemma lookup_absent k m : ~ In k (map fst m) -> lookup k m = None.
Proof.
  induction m as [|[k' v] m IH]; cbn; [reflexivity|]. intros H.
  destruct (String.eqb_spec k' k); [tauto|]. apply IH. tauto.
Qed.

(** With no key twice, the order of the entries does not matter to
    [lookup]. *)
Lemma lookup_Permutation k m m' :
  Permutation m m' -> NoDup (map fst m) -> lookup k m = lookup k m'.
Proof.
  induction 1 as [|[k0 v0] m m' Hp IH|[k1 v1] [k2 v2] m|m1 m2 m3 H1 IH1 H2 IH2];
    intros Hnd; cbn.
  - reflexivity.
  - inversion Hnd; subst. now rewrite IH.
  - inversion Hnd as [|? ? Hin Hnd']; subst. cbn in Hin.
    destruct (String.eqb_spec k1 k), (String.eqb_spec k2 k); try reflexivity.
    exfalso. apply Hin. left. congruence.
  - rewrite IH1 by assumption. apply IH2.
    eapply Permutation_NoDup; [|exact Hnd]. now apply Permutation_map.
Qed.

Lemma object_write_same a m h : object (write a m h) a = m.
Proof. cbn. now rewrite Nat.eqb_refl. Qed.

Lemma object_write_other a a' m h :
  a' <> a -> object (write a m h) a' = object h a'.
Proof. intros H. cbn. apply Nat.eqb_neq in H. now rewrite H. Qed.

(** The loop on a map that is not nil: it ends, touches that map only,
    and leaves under each key what [update] asks. *)
Lemma updateLoop_map a update : forall h,
  NoDup (map fst update) ->
  exists h',
    updateLoop (Some a) update h = Returned h' /\
    next h' = next h /\
    (forall a', a' <> a -> object h' a' = object h a') /\
    (forall k, lookup k (object h' a) = asked update k (lookup k (object h a))).
Proof.
  induction update as [|[k0 v0] update IH]; intros h Hnd.
  - exists h. cbn. auto.
  - inversion Hnd as [|? ? Hin Hnd']; subst. cbn [updateLoop].
    set (m1 := if v0 =? "" then delete k0 (object h a)
               else assign k0 v0 (object h a)).
    assert (Hstep : (if v0 =? ""
                     then updateLoop (Some a) update (write a (delete k0 (object h a)) h)
                     else updateLoop (Some a) update (write a (assign k0 v0 (object h a)) h))
                    = updateLoop (Some a) update (write a m1 h)).
    { unfold m1. destruct (v0 =? ""); reflexivity. }
    rewrite Hstep. destruct (IH (write a m1 h) Hnd') as (h' & Hrun & Hnext & Hother & Hk).
    exists h'. split; [exact Hrun|]. split; [exact Hnext|]. split.
    + intros a' Ha. rewrite (Hother a' Ha). now apply object_write_other.
    + intros k. rewrite Hk, object_write_same. unfold asked. cbn [lookup].
      destruct (String.eqb_spec k0 k) as [->|Hne].
      * rewrite (lookup_absent k update Hin). unfold m1, assign.
        destruct (v0 =? ""); cbn [lookup].
        -- apply lookup_delete_same.
        -- now rewrite String.eqb_refl.
      * assert (E : lookup k m1 = lookup k (object h a)); [|now rewrite E].
        unfold m1, assign. destruct (v0 =? ""); cbn [lookup].
        -- now apply lookup_delete_other.
        -- destruct (String.eqb_spec k0 k); [contradiction|].
           now apply lookup_delete_other.
Qed.

(** The loop on the nil map: removals do nothing, the first value to
    assign panics. *)
Lemma updateLoop_nil update h :
  updateLoop None update h
  = if forallb (fun e => snd e =? "") update then Returned h
    else Panicked nilMapAssignment.
Proof.
  induction update as [|[k v] update IH]; cbn; [reflexivity|].
  destruct (v =? ""); cbn; [exact IH|reflexivity].
Qed.

(** [Update] on a digest that holds a map, in short. *)
Lemma update_in_place_shape d update h mls a :
  labels mls d = Some (Some a) ->
  NoDup (map fst update) ->
  exists h',
    Update d update (h, mls)
    = Returned ((Some a, None), (h', store d (Some a) mls)) /\
    (forall k, valueAt h' (Some a) k = asked update k (valueAt h (Some a) k)).
Proof.
  intros Hd Hnd. unfold Update. rewrite Hd.
  destruct (updateLoop_map a update h Hnd) as (h' & Hrun & _ & _ & Hk).
  exists h'. rewrite Hrun. auto.
Qed.

Lemma asked_twice update k old :
  asked update k (asked update k old) = asked update k old.
Proof. unfold asked. destruct (lookup k update); reflexivity. Qed.

Lemma forallb_Permutation {A} (f : A -> bool) l l' :
  Permutation l l' -> forallb f l = forallb f l'.
Proof.
  induction 1; cbn; try congruence.
  destruct (f x), (f y); reflexivity.
Qed.

Lemma labels_store_same d r mls : labels (store d r mls) d = Some r.
Proof. cbn. now rewrite String.eqb_refl. Qed.

End LabelStoreFacts.

(** X14. [Set] then [Get]: [Get] gives back the very map value that was
    set, nil included, and never an error; a [Set] for one digest does
    not show under another; a digest never set reads as the nil map. *)
Theorem get_after_set d r mls :
  Get d (snd (Set_ d r mls)) = (r, None) /\
  fst (Set_ d r mls) = None /\
  (forall d', d' <> d -> Get d' (snd (Set_ d r mls)) = Get d' mls) /\
  Get d newMemoryLabelStore = (None, None).
Proof.
  unfold Get, Set_, store. cbn. rewrite String.eqb_refl.
  split; [reflexivity|]. split; [reflexivity|]. split; [|reflexivity].
  intros d' Hd.
  destruct (String.eqb_spec d' d); [contradiction|reflexivity].
Qed.

Lemma get_after_set_witness :
  Get "sha256:02" (snd (Set_ "sha256:01" (Some 3) newMemoryLabelStore))
  = Get "sha256:02" newMemoryLabelStore.
Proof.
  destruct (get_after_set "sha256:01" (Some 3) newMemoryLabelStore)
    as (_ & _ & Hframe & _).
  apply Hframe. discriminate.
Defined.

(** X15. [Update] on a digest that holds a map: it returns that same map
    and no error, and the map now holds, under each key of [update],
    the new value, or nothing where the new value is the empty string,
    and what it held under the other keys; the change is made in the
    map itself, no other map object is touched. *)
Theorem update_in_place d update h mls a :
  labels mls d = Some (Some a) ->
  NoDup (map fst update) ->
  exists h',
    Update d update (h, mls)
    = Returned ((Some a, None), (h', store d (Some a) mls)) /\
    (forall k, valueAt h' (Some a) k = asked update k (valueAt h (Some a) k)) /\
    (forall a', a' <> a -> object h' a' = object h a') /\
    next h' = next h.
Proof.
  intros Hd Hnd. unfold Update. rewrite Hd.
  destruct (updateLoop_map a update h Hnd) as (h' & Hrun & Hnext & Hother & Hk).
  exists h'. rewrite Hrun. auto.
Qed.

Lemma update_in_place_witness :
  let h := {| object := fun _ => [("team", "core"); ("tmp", "1")]; next := 1 |} in
  exists h',
    Update "sha256:01" [("tmp", ""); ("owner", "ann")]
      (h, store "sha256:01" (Some 0) newMemoryLabelStore)
    = Returned ((Some 0, None),
                (h', store "sha256:01" (Some 0)
                       (store "sha256:01" (Some 0) newMemoryLabelStore))) /\
    valueAt h' (Some 0) "tmp" = None /\
    valueAt h' (Some 0) "owner" = Some "ann" /\
    valueAt h' (Some 0) "team" = Some "core".
Proof.
  intros h.
  destruct (update_in_place "sha256:01" [("tmp", ""); ("owner", "ann")] h
              (store "sha256:01" (Some 0) newMemoryLabelStore) 0 eq_refl)
    as (h' & Hrun & Hk & _).
  - repeat constructor; cbn; intuition discriminate.
  - exists h'. split; [exact Hrun|].
    split; [|split]; rewrite Hk; reflexivity.
Defined.

(** X16. [Update] on a digest the store does not have: a new map is made,
    filled with the entries of [update] whose value is not empty,
    stored and returned; so even an empty [update] leaves a map that is
    not nil.  The maps already stored are not touched. *)
Theorem update_makes_map d update h mls :
  labels mls d = None ->
  NoDup (map fst update) ->
  allocated (h, mls) ->
  exists h',
    Update d update (h, mls)
    = Returned ((Some (next h), None), (h', store d (Some (next h)) mls)) /\
    (forall k, valueAt h' (Some (next h)) k = asked update k None) /\
    (forall d' k, valueAt h' (fst (Get d' mls)) k = valueAt h (fst (Get d' mls)) k) /\
    fst (Get d (store d (Some (next h)) mls)) <> None /\
    allocated (h', store d (Some (next h)) mls).
Proof.
  intros Hd Hnd Halloc. unfold Update. rewrite Hd. cbn [makeMap].
  set (h0 := {| object := fun a' => if Nat.eqb a' (next h) then [] else object h a';
                next := S (next h) |}).
  destruct (updateLoop_map (next h) update h0 Hnd)
    as (h' & Hrun & Hnext & Hother & Hk).
  exists h'. rewrite Hrun. split; [reflexivity|]. split; [|split; [|split]].
  - intros k. cbn [valueAt]. rewrite Hk. unfold h0. cbn [object].
    now rewrite Nat.eqb_refl.
  - intros d' k. unfold Get. cbn [fst].
    destruct (labels mls d') as [[a|]|] eqn:Hd'; try reflexivity.
    cbn [valueAt]. pose proof (Halloc d' a Hd') as Hlt. cbn in Hlt.
    rewrite Hother by lia. unfold h0. cbn [object].
    destruct (Nat.eqb_spec a (next h)); [lia|reflexivity].
  - unfold Get, store. cbn. rewrite String.eqb_refl. discriminate.
  - intros d' a. unfold store. cbn [snd fst labels].
    rewrite Hnext. unfold h0. cbn [next].
    destruct (String.eqb_spec d' d).
    + intros E. injection E as <-. lia.
    + intros E. pose proof (Halloc d' a E) as Hlt. cbn in Hlt. lia.
Qed.

Lemma update_makes_map_witness :
  exists h',
    Update "sha256:01" [] ({| object := fun _ => []; next := 0 |}, newMemoryLabelStore)
    = Returned ((Some 0, None), (h', store "sha256:01" (Some 0) newMemoryLabelStore)) /\
    fst (Get "sha256:01" (store "sha256:01" (Some 0) newMemoryLabelStore)) <> None.
Proof.
  destruct (update_makes_map "sha256:01" []
              {| object := fun _ => []; next := 0 |} newMemoryLabelStore eq_refl)
    as (h' & Hrun & _ & _ & Hget & _).
  - constructor.
  - intros d a H. discriminate H.
  - exists h'. split; [exact Hrun|exact Hget].
Defined.

(** X17. [Update] on a digest that holds the nil map (after [Set] with nil):
    when every value of [update] is the empty string nothing happens
    and the nil map is returned; as soon as [update] has a value to
    store, [Update] panics on the assignment to the nil map. *)
Theorem update_on_nil_map d update h mls :
  labels mls d = Some None ->
  Update d update (h, mls)
  = if forallb (fun e => snd e =? "") update
    then Returned ((None, None), (h, store d None mls))
    else Panicked nilMapAssignment.
Proof.
  intros Hd. unfold Update. rewrite Hd, updateLoop_nil.
  destruct (forallb _ update); reflexivity.
Qed.

Lemma update_on_nil_map_witness :
  Update "sha256:01" [("owner", "ann")]
    ({| object := fun _ => []; next := 0 |},
     snd (Set_ "sha256:01" None newMemoryLabelStore))
  = Panicked nilMapAssignment.
Proof.
  apply (update_on_nil_map "sha256:01" [("owner", "ann")]
           {| object := fun _ => []; next := 0 |}
           (snd (Set_ "sha256:01" None newMemoryLabelStore))).
  reflexivity.
Defined.

(** X18. The order in which [range] hands out the entries of [update]
    does not show: on two orders of the same entries [Update] panics
    both times or returns both times, with the same map value, the
    same store and maps that hold the same values. *)
Theorem update_order_irrelevant d update update' h mls :
  Permutation update update' ->
  NoDup (map fst update) ->
  match Update d update (h, mls), Update d update' (h, mls) with
  | Returned (res, (h1, m1)), Returned (res', (h2, m2)) =>
      res = res' /\
      (forall d', labels m1 d' = labels m2 d') /\
      next h1 = next h2 /\
      (forall a k, lookup k (object h1 a) = lookup k (object h2 a))
  | Panicked msg, Panicked msg' => msg = msg'
  | _, _ => False
  end.
Proof.
  intros Hperm Hnd.
  assert (Hnd' : NoDup (map fst update')).
  { eapply Permutation_NoDup; [|exact Hnd]. now apply Permutation_map. }
  assert (Hmap : forall a h0,
            exists h1 h2,
              updateLoop (Some a) update h0 = Returned h1 /\
              updateLoop (Some a) update' h0 = Returned h2 /\
              next h1 = next h2 /\
              forall a' k, lookup k (object h1 a') = lookup k (object h2 a')).
  { intros a h0.
    destruct (updateLoop_map a update h0 Hnd) as (h1 & R1 & N1 & O1 & K1).
    destruct (updateLoop_map a update' h0 Hnd') as (h2 & R2 & N2 & O2 & K2).
    exists h1, h2. repeat split; try assumption; [congruence|].
    intros a' k. destruct (Nat.eq_dec a' a) as [->|Ha].
    - rewrite K1, K2. unfold asked.
      now rewrite (lookup_Permutation k _ _ Hperm Hnd).
    - now rewrite O1, O2. }
  unfold Update. destruct (labels mls d) as [[a|]|].
  - destruct (Hmap a h) as (h1 & h2 & R1 & R2 & N & K). rewrite R1, R2. auto.
  - rewrite !updateLoop_nil, (forallb_Permutation _ _ _ Hperm).
    destruct (forallb _ update'); auto.
  - cbn [makeMap].
    match goal with
    | |- context [updateLoop (Some ?a) update ?h0] =>
        destruct (Hmap a h0) as (h1 & h2 & R1 & R2 & N & K)
    end.
    rewrite R1, R2. auto.
Qed.

Lemma update_order_irrelevant_witness :
  match Update "sha256:01" [("a", "1"); ("b", ""); ("c", "3")]
          ({| object := fun _ => []; next := 0 |}, newMemoryLabelStore),
        Update "sha256:01" [("c", "3"); ("a", "1"); ("b", "")]
          ({| object := fun _ => []; next := 0 |}, newMemoryLabelStore) with
  | Returned (res, (h1, m1)), Returned (res', (h2, m2)) =>
      res = res' /\
      (forall d', labels m1 d' = labels m2 d') /\
      next h1 = next h2 /\
      (forall a k, lookup k (object h1 a) = lookup k (object h2 a))
  | Panicked msg, Panicked msg' => msg = msg'
  | _, _ => False
  end.
Proof.
  apply (update_order_irrelevant "sha256:01" [("a", "1"); ("b", ""); ("c", "3")]
           [("c", "3"); ("a", "1"); ("b", "")]).
  - apply Permutation_sym. apply (Permutation_cons_app [_; _] []).
    apply Permutation_refl.
  - repeat constructor; cbn; intuition discriminate.
Defined.

(** X19. [Update] is idempotent: when it has returned, the same [Update]
    again returns the same map value and leaves every map with the
    values it had. *)
Theorem update_twice d update h mls res h1 m1 :
  NoDup (map fst update) ->
  Update d update (h, mls) = Returned (res, (h1, m1)) ->
  exists h2 m2,
    Update d update (h1, m1) = Returned (res, (h2, m2)) /\
    (forall d', labels m2 d' = labels m1 d') /\
    next h2 = next h1 /\
    (forall a k, lookup k (object h2 a) = lookup k (object h1 a)).
Proof.
  intros Hnd Hrun.
  assert (Hagain : forall a h0 h',
            updateLoop (Some a) update h0 = Returned h' ->
            exists h2,
              updateLoop (Some a) update h' = Returned h2 /\
              next h2 = next h' /\
              forall a' k, lookup k (object h2 a') = lookup k (object h' a')).
  { intros a h0 h' R.
    destruct (updateLoop_map a update h0 Hnd) as (h'' & R1 & _ & _ & K1).
    rewrite R in R1. injection R1 as <-.
    destruct (updateLoop_map a update h' Hnd) as (h2 & R2 & N2 & O2 & K2).
    exists h2. repeat split; try assumption.
    intros a' k. destruct (Nat.eq_dec a' a) as [->|Ha].
    - now rewrite K2, K1, asked_twice.
    - now rewrite O2. }
  assert (Hstore : forall r m d', labels (store d r (store d r m)) d'
                                  = labels (store d r m) d').
  { intros r m d'. cbn. destruct (d' =? d); reflexivity. }
  unfold Update in *. destruct (labels mls d) as [[a|]|] eqn:Hd.
  - destruct (updateLoop (Some a) update h) as [h'|] eqn:R; [|discriminate].
    injection Hrun as <- <- <-. rewrite labels_store_same.
    destruct (Hagain a h h' R) as (h2 & R2 & N2 & K2). rewrite R2.
    eexists. eexists. split; [reflexivity|]. auto.
  - rewrite updateLoop_nil in *.
    destruct (forallb _ update) eqn:E; [|discriminate].
    injection Hrun as <- <- <-. rewrite labels_store_same, updateLoop_nil, E.
    eexists. eexists. split; [reflexivity|]. auto.
  - cbn [makeMap] in Hrun.
    match type of Hrun with
    | context [updateLoop (Some ?a) update ?h0] =>
        destruct (updateLoop (Some a) update h0) as [h'|] eqn:R; [|discriminate];
        destruct (Hagain a h0 h' R) as (h2 & R2 & N2 & K2)
    end.
    injection Hrun as <- <- <-. rewrite labels_store_same, R2.
    eexists. eexists. split; [reflexivity|]. auto.
Qed.

Lemma update_twice_witness :
  exists h1 h2 m2,
    Update "sha256:01" [("owner", "ann")]
      ({| object := fun _ => []; next := 0 |}, newMemoryLabelStore)
    = Returned ((Some 0, None), (h1, store "sha256:01" (Some 0) newMemoryLabelStore)) /\
    Update "sha256:01" [("owner", "ann")]
      (h1, store "sha256:01" (Some 0) newMemoryLabelStore)
    = Returned ((Some 0, None), (h2, m2)) /\
    (forall a k, lookup k (object h2 a) = lookup k (object h1 a)).
Proof.
  eexists.
  destruct (update_twice "sha256:01" [("owner", "ann")]
              {| object := fun _ => []; next := 0 |} newMemoryLabelStore
              (Some 0, None) _ _
              ltac:(repeat constructor; cbn; intuition discriminate) eq_refl)
    as (h2 & m2 & Hrun & _ & _ & Hk).
  exists h2, m2. split; [reflexivity|]. split; [exact Hrun|exact Hk].
Defined.

(** X20. [Set] keeps the caller's map, not a copy: when two digests were
    set to one map, an [Update] through the first digest is read
    through the second, and through the caller's own reference. *)
Theorem set_shares_the_map d1 d2 a update h mls :
  NoDup (map fst update) ->
  let mls2 := snd (Set_ d2 (Some a) (snd (Set_ d1 (Some a) mls))) in
  exists h' mls3,
    Update d1 update (h, mls2) = Returned ((Some a, None), (h', mls3)) /\
    fst (Get d2 mls3) = Some a /\
    (forall k, valueAt h' (fst (Get d2 mls3)) k
               = asked update k (valueAt h (Some a) k)).
Proof.
  intros Hnd mls2.
  assert (H1 : labels mls2 d1 = Some (Some a)).
  { unfold mls2, Set_, store. cbn. rewrite String.eqb_refl.
    destruct (d1 =? d2); reflexivity. }
  destruct (update_in_place_shape d1 update h mls2 a H1 Hnd)
    as (h' & Hrun & Hk).
  exists h', (store d1 (Some a) mls2). split; [exact Hrun|].
  assert (H2 : fst (Get d2 (store d1 (Some a) mls2)) = Some a).
  { unfold Get, mls2, Set_, store. cbn. rewrite String.eqb_refl.
    destruct (d2 =? d1); reflexivity. }
  split; [exact H2|]. intros k. rewrite H2. apply Hk.
Qed.

Lemma set_shares_the_map_witness :
  let h := {| object := fun _ => [("team", "core")]; next := 1 |} in
  let mls2 := snd (Set_ "sha256:02" (Some 0)
                     (snd (Set_ "sha256:01" (Some 0) newMemoryLabelStore))) in
  exists h' mls3,
    Update "sha256:01" [("team", "")] (h, mls2)
    = Returned ((Some 0, None), (h', mls3)) /\
    valueAt h' (fst (Get "sha256:02" mls3)) "team" = None.
Proof.
  intros h mls2.
  destruct (set_shares_the_map "sha256:01" "sha256:02" 0 [("team", "")] h
              newMemoryLabelStore
              ltac:(repeat constructor; cbn; intuition discriminate))
    as (h' & mls3 & Hrun & _ & Hk).
  exists h', mls3. split; [exact Hrun|]. rewrite Hk. reflexivity.
Defined.

End labelstore.
